(** * PV upgrade workflow (frontend/csi/helpers/kubernetes/upgrade_pv.go)

    A shallow embedding of the code that converts NFS/iSCSI persistent
    volumes to CSI persistent volumes, and the properties of that code.

    Conventions of the embedding:
    - Go structs are records, with the fields the workflow reads or writes
      and a few more of the same object so that frame properties mean
      something; a Go map is [gomap] (nil or a finite map), a Go slice is
      [slice] (nil or a list).
    - Values are immutable here, so [DeepCopy] is the identity.
    - The plugin's collaborators (orchestrator, cache indexers, Kubernetes
      client, patch helpers, clock) are an interface [Env] over an abstract
      cluster type; every theorem holds for all implementations of it.
    - The cluster changes only through the workflow's own API calls and
      while the workflow sleeps between polls; reads do not change it.
    - Calls to the logger are not modelled. *)

From stdpp Require Import base option list strings gmap pretty.


(** ** Go values *)

(** A Go slice: [None] is the nil slice. *)
Definition slice (A : Type) := option (list A).

(** [len(s)], which is 0 for the nil slice. *)
Definition len {A} (s : slice A) : nat :=
  match s with None => 0 | Some l => length l end.

(** The elements a [for _, x := range s] visits. *)
Definition range {A} (s : slice A) : list A :=
  match s with None => [] | Some l => l end.

(** A Go [map[string]string]: [None] is the nil map. *)
Definition gomap := option (gmap string string).

(** [m[k]]: the zero value (the empty string) when the key is absent,
    also on a nil map. *)
Definition index (m : gomap) (k : string) : string :=
  match m with
  | None => ""
  | Some g => default "" (g !! k)
  end.

(** [v, ok := m[k]] as an option. *)
Definition lookup_key (m : gomap) (k : string) : option string :=
  match m with None => None | Some g => g !! k end.

(** The pairs a [for k, v := range m] visits (none for a nil map). *)
Definition entries (m : gomap) : list (string * string) :=
  match m with None => [] | Some g => map_to_list g end.

(** [time.Duration]: a number of nanoseconds. *)
Definition Duration := Z.

(** [strings.Join]. *)
Fixpoint Join (elems : list string) (sep : string) : string :=
  match elems with
  | [] => ""
  | [x] => x
  | x :: rest => x +:+ sep +:+ Join rest sep
  end.

(** ** Errors *)

(** The dynamic types of [error] that matter to the workflow: errors made
    by [fmt.Errorf], the API machinery's [*StatusError] with its reason,
    and the poller's wrapper of a non-retryable error. *)
Inductive error :=
| Errorf (msg : string)
| StatusError (reason : string) (msg : string)
| PermanentError (err : error).

(** [err.Error()], which is also what [%v] prints. *)
Fixpoint Error (e : error) : string :=
  match e with
  | Errorf msg => msg
  | StatusError _ msg => msg
  | PermanentError err => Error err
  end.

Definition StatusReasonNotFound : string := "NotFound".

(** ** Kubernetes objects (k8s.io/api/core/v1) *)

Record OwnerReference := {
  owner_Kind : string;
  owner_Name : string;
}.

Record ObjectMeta := {
  Name : string;
  Namespace : string;
  UID : string;
  ResourceVersion : string;
  DeletionTimestamp : option Z;
  Labels : gomap;
  Annotations : gomap;
  OwnerReferences : slice OwnerReference;
  Finalizers : slice string;
}.

Record ObjectReference := {
  ref_Namespace : string;
  ref_Name : string;
}.

Record NFSVolumeSource := {
  nfs_Server : string;
  nfs_Path : string;
  nfs_ReadOnly : bool;
}.

Record ISCSIPersistentVolumeSource := {
  iscsi_TargetPortal : string;
  iscsi_IQN : string;
  iscsi_Lun : Z;
  iscsi_FSType : string;
  iscsi_ReadOnly : bool;
}.

Record CSIPersistentVolumeSource := {
  csi_Driver : string;
  csi_VolumeHandle : string;
  csi_ReadOnly : bool;
  csi_FSType : string;
  csi_VolumeAttributes : gomap;
}.

Record PersistentVolumeSpec := {
  spec_Capacity : string;
  spec_NFS : option NFSVolumeSource;
  spec_ISCSI : option ISCSIPersistentVolumeSource;
  spec_CSI : option CSIPersistentVolumeSource;
  spec_ClaimRef : option ObjectReference;
  spec_StorageClassName : string;
}.

Definition VolumeBound : string := "Bound".
Definition ClaimLost : string := "Lost".
Definition ClaimBound : string := "Bound".
Definition PodRunning : string := "Running".

Record PersistentVolume := {
  pv_ObjectMeta : ObjectMeta;
  pv_Spec : PersistentVolumeSpec;
  pv_Phase : string;
}.

Record PersistentVolumeClaim := {
  pvc_ObjectMeta : ObjectMeta;
  pvc_VolumeName : string;
  pvc_StorageClassName : string;
  pvc_Phase : string;
}.

Record PersistentVolumeClaimVolumeSource := {
  ClaimName : string;
  claim_ReadOnly : bool;
}.

Record Volume := {
  volume_Name : string;
  volume_PersistentVolumeClaim : option PersistentVolumeClaimVolumeSource;
}.

Record Pod := {
  pod_ObjectMeta : ObjectMeta;
  pod_Volumes : slice Volume;
  pod_Phase : string;
}.

Record PodList := {
  Items : slice Pod;
}.

(** What a cache indexer holds: an [interface{}] whose dynamic type the
    caller has to assert. *)
Inductive Object :=
| ObjPV (pv : PersistentVolume)
| ObjPVC (pvc : PersistentVolumeClaim)
| ObjPod (pod : Pod).

(** The type assertion of [item] to a PersistentVolume pointer. *)
Definition assertPV (item : Object) : option PersistentVolume :=
  match item with ObjPV pv => Some pv | _ => None end.

(** Field updates, as assignments to the fields of a copy. *)
Definition setFinalizers (f : slice string) (m : ObjectMeta) : ObjectMeta :=
  {| Name := Name m; Namespace := Namespace m; UID := UID m;
     ResourceVersion := ResourceVersion m;
     DeletionTimestamp := DeletionTimestamp m; Labels := Labels m;
     Annotations := Annotations m; OwnerReferences := OwnerReferences m;
     Finalizers := f |}.

Definition setAnnotations (a : gomap) (m : ObjectMeta) : ObjectMeta :=
  {| Name := Name m; Namespace := Namespace m; UID := UID m;
     ResourceVersion := ResourceVersion m;
     DeletionTimestamp := DeletionTimestamp m; Labels := Labels m;
     Annotations := a; OwnerReferences := OwnerReferences m;
     Finalizers := Finalizers m |}.

Definition setResourceVersion (v : string) (m : ObjectMeta) : ObjectMeta :=
  {| Name := Name m; Namespace := Namespace m; UID := UID m;
     ResourceVersion := v;
     DeletionTimestamp := DeletionTimestamp m; Labels := Labels m;
     Annotations := Annotations m; OwnerReferences := OwnerReferences m;
     Finalizers := Finalizers m |}.

Definition setUID (u : string) (m : ObjectMeta) : ObjectMeta :=
  {| Name := Name m; Namespace := Namespace m; UID := u;
     ResourceVersion := ResourceVersion m;
     DeletionTimestamp := DeletionTimestamp m; Labels := Labels m;
     Annotations := Annotations m; OwnerReferences := OwnerReferences m;
     Finalizers := Finalizers m |}.

Definition pvSetMeta (m : ObjectMeta) (pv : PersistentVolume) : PersistentVolume :=
  {| pv_ObjectMeta := m; pv_Spec := pv_Spec pv; pv_Phase := pv_Phase pv |}.

Definition pvSetSpec (s : PersistentVolumeSpec) (pv : PersistentVolume) : PersistentVolume :=
  {| pv_ObjectMeta := pv_ObjectMeta pv; pv_Spec := s; pv_Phase := pv_Phase pv |}.

Definition pvcSetMeta (m : ObjectMeta) (pvc : PersistentVolumeClaim) : PersistentVolumeClaim :=
  {| pvc_ObjectMeta := m; pvc_VolumeName := pvc_VolumeName pvc;
     pvc_StorageClassName := pvc_StorageClassName pvc;
     pvc_Phase := pvc_Phase pvc |}.

(** The promoted field [pv.Name] and its like. *)
Definition pv_Name (pv : PersistentVolume) : string := Name (pv_ObjectMeta pv).
Definition pvc_Name (pvc : PersistentVolumeClaim) : string := Name (pvc_ObjectMeta pvc).
Definition pvc_Namespace (pvc : PersistentVolumeClaim) : string :=
  Namespace (pvc_ObjectMeta pvc).
Definition pod_Name (pod : Pod) : string := Name (pod_ObjectMeta pod).

(** ** Trident's volume record (package storage) *)

Record VolumeConfig := {
  config_Name : string;
  config_InternalName : string;
  config_Size : string;
  config_Protocol : string;
  config_StorageClass : string;
}.

Record VolumeExternal := {
  Config : VolumeConfig;
  Backend : string;
  BackendUUID : string;
  Pool : string;
  Orphaned : bool;
  State : string;
}.

Record UpgradeVolumeRequest := {
  request_Type : string;
  request_Volume : string;
}.

(** ** Constants declared outside this file *)

Record Constants := {
  AnnDynamicallyProvisioned : string;
  AnnBindCompleted : string;
  FinalizerPVProtection : string;
  LegacyProvisioner : string;
  Provisioner : string;
  VolumeStateOnline : string;
  PVDeleteWaitPeriod : Duration;
  PodDeleteWaitPeriod : Duration;
  (** what [%3.2f] prints for [d.Seconds()] *)
  formatSeconds : Duration → string;
}.

(** ** The mutating API calls the workflow can issue *)

Inductive ApiCall :=
| DeletePVCall (name : string)
| PatchPVCall (pv pvClone : PersistentVolume)
| PatchPVCCall (pvc pvcClone : PersistentVolumeClaim)
| CreatePVCall (pv : PersistentVolume)
| DeletePodCall (namespace name : string).

Definition isDeletePod (c : ApiCall) : bool :=
  match c with DeletePodCall _ _ => true | _ => false end.

(** ** The plugin's collaborators *)

(** The methods of [Plugin] and of its fields that this file calls and
    does not define, over a cluster of type [W]. A read returns its
    result; a write returns the cluster after it as well. [GetByKey]
    returns the triple (item, exists, err) of the indexer. *)
Record Plugin (W : Type) := {
  orchestrator_GetVolume : string → W → error + VolumeExternal;
  getCachedPVByName : string → W → error + PersistentVolume;
  getCachedPVCByName : string → string → W → error + PersistentVolumeClaim;
  pvIndexer_GetByKey : string → W → option Object * bool * option error;
  Pods_List : string → W → error + PodList;
  Pods_Get : string → string → W → option Pod * option error;
  Pods_Delete : string → string → W → W * option error;
  PersistentVolumes_Delete : string → W → W * option error;
  PersistentVolumes_Create :
    PersistentVolume → W → W * (error + PersistentVolume);
  patchPV :
    PersistentVolume → PersistentVolume → W → W * (error + PersistentVolume);
  patchPVC :
    PersistentVolumeClaim → PersistentVolumeClaim → W →
    W * (error + PersistentVolumeClaim);
  (** what happens in the cluster while the workflow sleeps *)
  sleep : Duration → W → W;
  (** the intervals an exponential back-off with the cache constants and
      the given maximum elapsed time yields before it says stop *)
  backoffIntervals : Duration → W → list Duration;
}.

Arguments orchestrator_GetVolume {W}.
Arguments getCachedPVByName {W}.
Arguments getCachedPVCByName {W}.
Arguments pvIndexer_GetByKey {W}.
Arguments Pods_List {W}.
Arguments Pods_Get {W}.
Arguments Pods_Delete {W}.
Arguments PersistentVolumes_Delete {W}.
Arguments PersistentVolumes_Create {W}.
Arguments patchPV {W}.
Arguments patchPVC {W}.
Arguments sleep {W}.
Arguments backoffIntervals {W}.

(** ** The workflow's state and monad *)

(** The cluster, the mutating API calls issued so far and the sleeps
    taken so far, oldest first. *)
Record Exec (W : Type) := {
  world : W;
  calls : list ApiCall;
  waits : list Duration;
}.

Arguments world {W}.
Arguments calls {W}.
Arguments waits {W}.

(** A Go call returns or panics. *)
Inductive outcome (A : Type) :=
| Val (a : A)
| Panic.

Arguments Val {A}.
Arguments Panic {A}.

Definition M (W A : Type) : Type := Exec W → Exec W * outcome A.

Global Instance M_ret {W} : MRet (M W) := λ A a s, (s, Val a).

Global Instance M_bind {W} : MBind (M W) := λ A B k m s,
  match m s with
  | (s', Val a) => k a s'
  | (s', Panic) => (s', Panic)
  end.

Definition panic {W A} : M W A := λ s, (s, Panic).

(** A read of the cluster. *)
Definition query {W A} (f : W → A) : M W A := λ s, (s, Val (f (world s))).

(** A mutating API call, recorded in [calls]. *)
Definition mutate {W A} (c : ApiCall) (f : W → W * A) : M W A := λ s,
  let '(w, a) := f (world s) in
  ({| world := w; calls := calls s ++ [c]; waits := waits s |}, Val a).

(** The execution state that starts at cluster [w] with empty histories. *)
Definition start {W} (w : W) : Exec W :=
  {| world := w; calls := []; waits := [] |}.

Section Workflow.

Context {W : Type}.
Variable p : Plugin W.
Variable K : Constants.

(** The timer wait of the poller, recorded in [waits]. *)
Definition Sleep (d : Duration) : M W unit := λ s,
  ({| world := sleep p d (world s); calls := calls s; waits := waits s ++ [d] |},
   Val ()).

(** Modelled from the spec: the Backoff Poller ([backoff.RetryNotify] of
    github.com/cenkalti/backoff, which is not in this file). It evaluates
    the condition; on success it returns nil; a non-retryable error is
    returned at once; otherwise it asks the back-off for the next interval
    and returns the condition's last error when the back-off says stop,
    else notifies, sleeps and tries again. The variable [l] is what the
    condition closure captures and assigns. The notify callbacks of this
    file only log. *)
Fixpoint RetryNotify {L} (operation : L → M W (L * option error))
    (b : list Duration) (l : L) : M W (L * option error) :=
  '(l', err) ← operation l;
  match err with
  | None => mret (l', None)
  | Some (PermanentError permanent) => mret (l', Some permanent)
  | Some err =>
      match b with
      | [] => mret (l', Some err)
      | next :: b' => Sleep next;; RetryNotify operation b' l'
      end
  end.

(** *** waitForDeletedPV *)

(** The closure [checkForDeletedPV] of [waitForDeletedPV]; it assigns the
    captured variable [pv]. *)
Definition checkForDeletedPV (name : string) (_ : option PersistentVolume)
    : M W (option PersistentVolume * option error) :=
  '(item, exists_, err) ← query (pvIndexer_GetByKey p name);
  match err with
  | Some err => mret (None, Some err)
  | None =>
      if negb exists_ then mret (None, None)
      else match item ≫= assertPV with
           | None =>
               mret (None, Some (Errorf ("non-PV object " +:+ name +:+ " found in cache")))
           | Some pv =>
               if decide (DeletionTimestamp (pv_ObjectMeta pv) = None)
               then mret (Some pv,
                          Some (Errorf ("PV " +:+ name +:+ " deletion timestamp not set")))
               else mret (Some pv, None)
           end
  end.

Definition waitForDeletedPV (name : string) (maxElapsedTime : Duration)
    : M W (option PersistentVolume * option error) :=
  pvBackoff ← query (backoffIntervals p maxElapsedTime);
  '(pv, err) ← RetryNotify (checkForDeletedPV name) pvBackoff None;
  match err with
  | Some _ =>
      mret (None, Some (Errorf ("PV " +:+ name +:+ " was not deleted after "
                                +:+ formatSeconds K maxElapsedTime +:+ " seconds")))
  | None => mret (pv, None)
  end.

(** *** waitForPVDisappearance *)

(** The closure [checkForDeletedPV] of [waitForPVDisappearance]; it
    captures nothing it assigns. *)
Definition checkForGonePV (name : string) (_ : unit) : M W (unit * option error) :=
  '(item, exists_, err) ← query (pvIndexer_GetByKey p name);
  match err with
  | Some err => mret ((), Some err)
  | None =>
      if negb exists_ then mret ((), None)
      else match item ≫= assertPV with
           | None =>
               mret ((), Some (Errorf ("non-PV object " +:+ name +:+ " found in cache")))
           | Some _ =>
               mret ((), Some (Errorf ("PV " +:+ name +:+ " still exists")))
           end
  end.

Definition waitForPVDisappearance (name : string) (maxElapsedTime : Duration)
    : M W (option error) :=
  pvBackoff ← query (backoffIntervals p maxElapsedTime);
  '(_, err) ← RetryNotify (checkForGonePV name) pvBackoff ();
  match err with
  | Some _ =>
      mret (Some (Errorf ("PV " +:+ name +:+ " was not fully deleted after "
                          +:+ formatSeconds K maxElapsedTime +:+ " seconds")))
  | None => mret None
  end.

(** *** waitForPVCPhase *)

(** The closure [checkForPVCPhase]; it assigns the captured [latestPVC]. *)
Definition checkForPVCPhase (pvc : PersistentVolumeClaim) (phase : string)
    (_ : option PersistentVolumeClaim)
    : M W (option PersistentVolumeClaim * option error) :=
  r ← query (getCachedPVCByName p (pvc_Name pvc) (pvc_Namespace pvc));
  match r with
  | inl err => mret (None, Some err)
  | inr latestPVC =>
      if decide (pvc_Phase latestPVC ≠ phase)
      then mret (Some latestPVC,
                 Some (Errorf ("PVC " +:+ pvc_Namespace pvc +:+ "/" +:+ pvc_Name pvc
                               +:+ " not yet " +:+ phase)))
      else mret (Some latestPVC, None)
  end.

Definition waitForPVCPhase (pvc : PersistentVolumeClaim) (phase : string)
    (maxElapsedTime : Duration) : M W (error + option PersistentVolumeClaim) :=
  pvcBackoff ← query (backoffIntervals p maxElapsedTime);
  '(latestPVC, err) ← RetryNotify (checkForPVCPhase pvc phase) pvcBackoff None;
  match err with
  | Some _ =>
      mret (inl (Errorf ("PVC " +:+ pvc_Namespace pvc +:+ "/" +:+ pvc_Name pvc
                         +:+ " was not " +:+ phase +:+ " after "
                         +:+ formatSeconds K maxElapsedTime +:+ " seconds")))
  | None => mret (inr latestPVC)
  end.

(** *** waitForDeletedOrNonRunningPod *)

Definition checkForDeletedPod (name namespace : string) (_ : option Pod)
    : M W (option Pod * option error) :=
  '(pod, err) ← query (Pods_Get p namespace name);
  match err with
  | Some err =>
      match err with
      | StatusError reason _ =>
          if decide (reason = StatusReasonNotFound) then mret (pod, None)
          else mret (pod, Some err)
      | _ => mret (pod, Some err)
      end
  | None =>
      match pod with
      | None =>
          mret (pod, Some (Errorf ("Kubernetes API returned nil for pod "
                                   +:+ namespace +:+ "/" +:+ name)))
      | Some pod' =>
          if decide (pod_Phase pod' = PodRunning)
          then mret (pod, Some (Errorf ("pod " +:+ namespace +:+ "/" +:+ name
                                        +:+ " phase is " +:+ pod_Phase pod')))
          else mret (pod, None)
      end
  end.

Definition waitForDeletedOrNonRunningPod (name namespace : string)
    (maxElapsedTime : Duration) : M W (error + option Pod) :=
  podBackoff ← query (backoffIntervals p maxElapsedTime);
  '(pod, err) ← RetryNotify (checkForDeletedPod name namespace) podBackoff None;
  match err with
  | Some _ =>
      mret (inl (Errorf ("pod " +:+ namespace +:+ "/" +:+ name
                         +:+ " was not deleted or non-Running after "
                         +:+ formatSeconds K maxElapsedTime +:+ " seconds")))
  | None => mret (inr pod)
  end.

(** *** removePVFinalizers *)

Definition removePVFinalizers (pv : PersistentVolume)
    : M W (error + PersistentVolume) :=
  let pvClone := pvSetMeta (setFinalizers (Some []) (pv_ObjectMeta pv)) pv in
  r ← mutate (PatchPVCall pv pvClone) (patchPV p pv pvClone);
  match r with
  | inl err =>
      mret (inl (Errorf ("could not remove finalizers from PV" +:+ ": " +:+ Error err)))
  | inr patchedPV => mret (inr patchedPV)
  end.

(** *** removePVCBindCompletedAnnotation *)

(** The loop that copies all annotations except bind-completed into the
    fresh map of the clone. *)
Definition copyAnnotations (annotations : gomap) : gmap string string :=
  match annotations with
  | None => ∅
  | Some g =>
      foldl (λ clone '(k, v),
               if decide (k ≠ AnnBindCompleted K) then <[k := v]> clone else clone)
            ∅ (map_to_list g)
  end.

(** The object that [removePVCBindCompletedAnnotation] submits as the
    patched version of [pvc]. *)
Definition pvcCloneWithoutBindCompleted (pvc : PersistentVolumeClaim)
    : PersistentVolumeClaim :=
  pvcSetMeta
    (setAnnotations (Some (copyAnnotations (Annotations (pvc_ObjectMeta pvc))))
                    (pvc_ObjectMeta pvc))
    pvc.

Definition removePVCBindCompletedAnnotation (pvc : PersistentVolumeClaim)
    : M W (error + PersistentVolumeClaim) :=
  let pvcClone := pvcCloneWithoutBindCompleted pvc in
  r ← mutate (PatchPVCCall pvc pvcClone) (patchPVC p pvc pvcClone);
  match r with
  | inl err => mret (inl err)
  | inr patchedPVC => mret (inr patchedPVC)
  end.

(** *** createCSIPVFromPV *)

(** The CSI volume source that [createCSIPVFromPV] builds. *)
Definition csiSourceFromPV (pv : PersistentVolume) (volume : VolumeExternal)
    : CSIPersistentVolumeSource :=
  let '(readOnly, fsType) :=
    match spec_NFS (pv_Spec pv) with
    | Some nfs => (nfs_ReadOnly nfs, "")
    | None =>
        match spec_ISCSI (pv_Spec pv) with
        | Some iscsi => (iscsi_ReadOnly iscsi, iscsi_FSType iscsi)
        | None => (false, "")
        end
    end in
  let volumeAttributes : gmap string string :=
    <["protocol" := config_Protocol (Config volume)]>
      (<["internalName" := config_InternalName (Config volume)]>
         (<["name" := config_Name (Config volume)]>
            (<["backendUUID" := BackendUUID volume]> ∅))) in
  {| csi_Driver := Provisioner K;
     csi_VolumeHandle := pv_Name pv;
     csi_ReadOnly := readOnly;
     csi_FSType := fsType;
     csi_VolumeAttributes := Some volumeAttributes |}.

(** The object that [createCSIPVFromPV] submits for creation. *)
Definition csiPVFromPV (pv : PersistentVolume) (volume : VolumeExternal)
    : PersistentVolume :=
  let meta := setUID "" (setResourceVersion "" (pv_ObjectMeta pv)) in
  let spec :=
    {| spec_Capacity := spec_Capacity (pv_Spec pv);
       spec_NFS := None;
       spec_ISCSI := None;
       spec_CSI := Some (csiSourceFromPV pv volume);
       spec_ClaimRef := spec_ClaimRef (pv_Spec pv);
       spec_StorageClassName := spec_StorageClassName (pv_Spec pv) |} in
  let annotations :=
    match Annotations meta with
    | None => ∅
    | Some g => g
    end in
  let meta :=
    setAnnotations
      (Some (<[AnnDynamicallyProvisioned K := Provisioner K]> annotations)) meta in
  pvSetSpec spec (pvSetMeta meta pv).

Definition createCSIPVFromPV (pv : PersistentVolume) (volume : VolumeExternal)
    : M W (error + PersistentVolume) :=
  let csiPV := csiPVFromPV pv volume in
  r ← mutate (CreatePVCall csiPV) (PersistentVolumes_Create p csiPV);
  match r with
  | inl err => mret (inl err)
  | inr csiPV => mret (inr csiPV)
  end.

(** *** getPodsForPVC *)

(** The body of the inner loop: one volume entry of one pod, with the two
    lists built so far as (owned, naked). *)
Definition visitVolume (pvc : PersistentVolumeClaim) (pod : Pod)
    (lists : list string * list string) (volume : Volume)
    : list string * list string :=
  let '(ownedPodsForPVC, nakedPodsForPVC) := lists in
  match volume_PersistentVolumeClaim volume with
  | Some source =>
      if decide (ClaimName source = pvc_Name pvc) then
        if bool_decide (OwnerReferences (pod_ObjectMeta pod) = None)
           || bool_decide (len (OwnerReferences (pod_ObjectMeta pod)) = 0)
        then (ownedPodsForPVC, nakedPodsForPVC ++ [pod_Name pod])
        else (ownedPodsForPVC ++ [pod_Name pod], nakedPodsForPVC)
      else lists
  | None => lists
  end.

(** The result is (owned, naked), in the order of the Go return. *)
Definition getPodsForPVC (pvc : PersistentVolumeClaim)
    : M W (error + list string * list string) :=
  r ← query (Pods_List p (pvc_Namespace pvc));
  match r with
  | inl err => mret (inl err)
  | inr podList =>
      match Items podList with
      | None => mret (inr ([], []))
      | Some items =>
          mret (inr (foldl (λ lists pod,
                              foldl (visitVolume pvc pod) lists (range (pod_Volumes pod)))
                           ([], []) items))
      end
  end.

(** *** deletePVForUpgrade *)

Definition deletePVForUpgrade (pv : PersistentVolume) : M W (option error) :=
  let hasFinalizers :=
    bool_decide (Finalizers (pv_ObjectMeta pv) ≠ None)
    && bool_decide (0 < len (Finalizers (pv_ObjectMeta pv))) in
  err ←
    match DeletionTimestamp (pv_ObjectMeta pv) with
    | None =>
        err ← mutate (DeletePVCall (pv_Name pv)) (PersistentVolumes_Delete p (pv_Name pv));
        match err with
        | Some err => mret (Some err)
        | None =>
            '(deletedPV, err) ← waitForDeletedPV (pv_Name pv) (PVDeleteWaitPeriod K);
            match err, deletedPV with
            | Some err, _ => mret (Some err)
            | None, Some deletedPV =>
                r ← removePVFinalizers deletedPV;
                match r with
                | inl err => mret (Some err)
                | inr _ => mret None
                end
            | None, None => mret None
            end
        end
    | Some _ =>
        if hasFinalizers then
          r ← removePVFinalizers pv;
          match r with
          | inl err => mret (Some err)
          | inr _ => mret None
          end
        else mret None
    end;
  match err with
  | Some err => mret (Some err)
  | None => waitForPVDisappearance (pv_Name pv) (PVDeleteWaitPeriod K)
  end.

(** *** UpgradeVolume *)

(** [fmt.Errorf("%s: %v", message, err)]. *)
Definition wrap (message : string) (err : error) : error :=
  Errorf (message +:+ ": " +:+ Error err).

(** The loop of [UpgradeVolume] that deletes all owned pods that were
    using the PV; it stops at the first failure. *)
Fixpoint deleteOwnedPods (namespace : string) (ownedPodsForPVC : list string)
    : M W (option error) :=
  match ownedPodsForPVC with
  | [] => mret None
  | podName :: rest =>
      err ← mutate (DeletePodCall namespace podName) (Pods_Delete p namespace podName);
      match err with
      | Some err =>
          mret (Some (wrap "PV upgrade: could not delete a pod using the PV" err))
      | None => deleteOwnedPods namespace rest
      end
  end.

(** The loop of [UpgradeVolume] that waits for all deleted pods to
    disappear or reappear in a non-Running state. *)
Fixpoint awaitOwnedPods (namespace : string) (ownedPodsForPVC : list string)
    : M W (option error) :=
  match ownedPodsForPVC with
  | [] => mret None
  | podName :: rest =>
      r ← waitForDeletedOrNonRunningPod podName namespace (PodDeleteWaitPeriod K);
      match r with
      | inl err => mret (Some (wrap "PV upgrade: unexpected pod status" err))
      | inr _ => awaitOwnedPods namespace rest
      end
  end.

(** The message of the rejection for naked pods. *)
Definition nakedPodsMessage (nakedPodsForPVC : list string) : string :=
  "PV upgrade: one or more naked pods are using the PV ("
  +:+ Join nakedPodsForPVC ","
  +:+ "); shut down these pods manually and try again".

Definition UpgradeVolume (request : UpgradeVolumeRequest)
    : M W (error + VolumeExternal) :=
  (* Check volume exists in Trident *)
  r ← query (orchestrator_GetVolume p (request_Volume request));
  match r with
  | inl err => mret (inl (wrap "PV upgrade: could not find the volume to upgrade" err))
  | inr volume =>
  (* Check volume state is online *)
  if decide (State volume ≠ VolumeStateOnline K) then
    mret (inl (Errorf "PV upgrade: Trident volume to be upgraded must be in online state"))
  else
  (* Get PV *)
  r ← query (getCachedPVByName p (request_Volume request));
  match r with
  | inl err => mret (inl (wrap "PV upgrade: could not find the PV to upgrade" err))
  | inr pv =>
  (* Check volume type is iSCSI or NFS *)
  if decide (spec_NFS (pv_Spec pv) = None ∧ spec_ISCSI (pv_Spec pv) = None) then
    mret (inl (Errorf "PV to be upgraded must be of type NFS or iSCSI"))
  else
  (* Check PV is bound to a PVC *)
  if decide (pv_Phase pv ≠ VolumeBound) then
    mret (inl (Errorf "PV upgrade: PV must be bound to a PVC"))
  else
  (* Ensure the legacy PV was provisioned by Trident *)
  if decide (index (Annotations (pv_ObjectMeta pv)) (AnnDynamicallyProvisioned K)
             ≠ LegacyProvisioner K) then
    mret (inl (Errorf "PV upgrade: PV must have been provisioned by Trident"))
  else
  match spec_ClaimRef (pv_Spec pv) with
  | None => panic
  | Some claimRef =>
  let namespace := ref_Namespace claimRef in
  (* Get PVC *)
  r ← query (getCachedPVCByName p (ref_Name claimRef) (ref_Namespace claimRef));
  match r with
  | inl err => mret (inl (wrap "PV upgrade: could not find the PVC bound to the PV" err))
  | inr pvc =>
  (* Ensure no naked pods have PV mounted *)
  r ← getPodsForPVC pvc;
  match r with
  | inl err => mret (inl (wrap "PV upgrade: could not check for pods using the PV" err))
  | inr (ownedPodsForPVC, nakedPodsForPVC) =>
  if decide (0 < length nakedPodsForPVC) then
    mret (inl (Errorf (nakedPodsMessage nakedPodsForPVC)))
  else
  (* Check that PV has at most one finalizer, which must be pv-protection *)
  if match Finalizers (pv_ObjectMeta pv) with
     | Some (finalizer :: others) =>
         bool_decide (finalizer ≠ FinalizerPVProtection K)
         || bool_decide (1 < length (finalizer :: others))
     | _ => false
     end
  then
    mret (inl (Errorf "PV upgrade: PV has a finalizer other than kubernetes.io/pv-protection"))
  else
  (* Delete the PV along with any finalizers *)
  err ← deletePVForUpgrade pv;
  match err with
  | Some err => mret (inl (wrap "PV upgrade: could not delete the PV" err))
  | None =>
  (* Wait for PVC to become Lost *)
  r ← waitForPVCPhase pvc ClaimLost (PVDeleteWaitPeriod K);
  match r with
  | inl err => mret (inl (wrap "PV upgrade: PVC did not reach the Lost state" err))
  | inr lostPVC =>
  (* Delete all owned pods that were using the PV *)
  err ← deleteOwnedPods namespace ownedPodsForPVC;
  match err with
  | Some err => mret (inl err)
  | None =>
  (* Wait for all deleted pods to disappear *)
  err ← awaitOwnedPods namespace ownedPodsForPVC;
  match err with
  | Some err => mret (inl err)
  | None =>
  (* Remove bind-completed annotation from PVC *)
  match lostPVC with
  | None => panic
  | Some lostPVC =>
  r ← removePVCBindCompletedAnnotation lostPVC;
  match r with
  | inl err =>
      mret (inl (wrap "PV upgrade: could not remove bind-completed annotation from PVC" err))
  | inr unboundLostPVC =>
  (* Create new PV *)
  r ← createCSIPVFromPV pv volume;
  match r with
  | inl err =>
      mret (inl (wrap "PV upgrade: could not create the CSI version of PV being upgraded" err))
  | inr csiPV =>
  (* Wait for PVC to become Bound *)
  r ← waitForPVCPhase unboundLostPVC ClaimBound (PVDeleteWaitPeriod K);
  match r with
  | inl err => mret (inl (wrap "PV upgrade: PVC did not reach the Bound state" err))
  | inr boundPVC =>
  (* Return volume to caller *)
  mret (inr volume)
  end end end end end end end end end end end end end.

(** *** Polling histories *)

(** The execution state after the poller has slept through the intervals
    [b] in turn. *)
Definition afterSleeps (b : list Duration) (s : Exec W) : Exec W :=
  foldl (λ s d, (Sleep d s).1) s b.

(** [P] holds of the cluster at every poll of a poller that starts in
    cluster [w] and sleeps through the intervals [b]: now, and after each
    sleep. *)
Fixpoint atEveryPoll (P : W → Prop) (b : list Duration) (w : W) : Prop :=
  P w ∧ match b with
        | [] => True
        | d :: b' => atEveryPoll P b' (sleep p d w)
        end.

(** The cached lookup of [name] yields an entry that is not a PV. *)
Definition typeMismatch (name : string) (w : W) : Prop :=
  ∃ item, pvIndexer_GetByKey p name w = (item, true, None)
          ∧ item ≫= assertPV = None.

(** The cached lookup of [name] reports that there is no such entry. *)
Definition absentFromCache (name : string) (w : W) : Prop :=
  ∃ item, pvIndexer_GetByKey p name w = (item, false, None).

(** The cache does not show the claim in phase [phase]. *)
Definition notInPhase (pvc : PersistentVolumeClaim) (phase : string) (w : W) : Prop :=
  ∀ latestPVC,
    getCachedPVCByName p (pvc_Name pvc) (pvc_Namespace pvc) w = inr latestPVC →
    pvc_Phase latestPVC ≠ phase.

(** The pod deletions among the API calls issued so far. *)
Definition podDeletions (s : Exec W) : list ApiCall :=
  List.filter isDeletePod (calls s).

(** A computation that deletes no pod, whatever state it starts in. *)
Definition deletesNoPod {A} (m : M W A) : Prop :=
  ∀ s, podDeletions (m s).1 = podDeletions s.

(** The cache holds the PV [pv] under [name], with a deletion timestamp. *)
Definition markedInCache (name : string) (pv : PersistentVolume) (w : W) : Prop :=
  ∃ item, pvIndexer_GetByKey p name w = (item, true, None)
          ∧ item ≫= assertPV = Some pv
          ∧ DeletionTimestamp (pv_ObjectMeta pv) ≠ None.

(** The cache shows the claim as [latestPVC], in phase [phase]. *)
Definition showsPhase (pvc : PersistentVolumeClaim) (phase : string)
    (latestPVC : PersistentVolumeClaim) (w : W) : Prop :=
  getCachedPVCByName p (pvc_Name pvc) (pvc_Namespace pvc) w = inr latestPVC
  ∧ pvc_Phase latestPVC = phase.

(** The API server answers the fetch of the pod with [pod] and a
    not-found status error. *)
Definition podNotFound (namespace name : string) (pod : option Pod) (w : W) : Prop :=
  ∃ msg, Pods_Get p namespace name w
         = (pod, Some (StatusError StatusReasonNotFound msg)).

(** The API server answers the fetch of the pod with the pod [pod], which
    is in a phase other than Running. *)
Definition podNotRunning (namespace name : string) (pod : option Pod) (w : W) : Prop :=
  ∃ pod', pod = Some pod'
          ∧ Pods_Get p namespace name w = (pod, None)
          ∧ pod_Phase pod' ≠ PodRunning.

(** The API server answers the fetch of the pod with a pod in phase
    Running. *)
Definition podRunning (namespace name : string) (w : W) : Prop :=
  ∃ pod, Pods_Get p namespace name w = (Some pod, None)
         ∧ pod_Phase pod = PodRunning.


(** *** The checks of UpgradeVolume *)

(** The checks of [UpgradeVolume] that come before the search for pods
    pass in [s], and find these objects: the Trident volume exists and is
    online, the PV is cached, has an NFS or iSCSI source, is bound, was
    provisioned by Trident and references a claim, and the claim is
    cached. *)
Definition passesEarlyChecks (request : UpgradeVolumeRequest) (s : Exec W)
    (volume : VolumeExternal) (pv : PersistentVolume) (claimRef : ObjectReference)
    (pvc : PersistentVolumeClaim) : Prop :=
  orchestrator_GetVolume p (request_Volume request) (world s) = inr volume
  ∧ State volume = VolumeStateOnline K
  ∧ getCachedPVByName p (request_Volume request) (world s) = inr pv
  ∧ ¬ (spec_NFS (pv_Spec pv) = None ∧ spec_ISCSI (pv_Spec pv) = None)
  ∧ pv_Phase pv = VolumeBound
  ∧ index (Annotations (pv_ObjectMeta pv)) (AnnDynamicallyProvisioned K)
    = LegacyProvisioner K
  ∧ spec_ClaimRef (pv_Spec pv) = Some claimRef
  ∧ getCachedPVCByName p (ref_Name claimRef) (ref_Namespace claimRef) (world s)
    = inr pvc.

(** The PV has no finalizer, or the pv-protection finalizer alone. *)
Definition finalizersAllowed (pv : PersistentVolume) : Prop :=
  len (Finalizers (pv_ObjectMeta pv)) = 0
  ∨ Finalizers (pv_ObjectMeta pv) = Some [FinalizerPVProtection K].

End Workflow.

(** ** A small cluster to run the workflow on

    An implementation of [Plugin] over an explicit cluster: a registry of
    Trident volumes, the PV cache, the PVC cache and the pods. Deleting a
    PV that has finalizers only marks it; while the workflow sleeps, marked
    PVs without finalizers are collected and, when the PV controller runs,
    claims are reconciled (a bound claim whose volume is gone becomes Lost,
    a lost claim without the bind-completed annotation whose volume exists
    becomes Bound). *)
Module Sim.

Definition second : Duration := 1000000000%Z.
Definition twoSeconds : Duration := (2 * second)%Z.

Definition twoDigits (n : Z) : string :=
  if decide (n < 10)%Z then "0" +:+ pretty n else pretty n.

Definition constants : Constants :=
  {| AnnDynamicallyProvisioned := "pv.kubernetes.io/provisioned-by";
     AnnBindCompleted := "pv.kubernetes.io/bind-completed";
     FinalizerPVProtection := "kubernetes.io/pv-protection";
     LegacyProvisioner := "netapp.io/trident";
     Provisioner := "csi.trident.netapp.io";
     VolumeStateOnline := "online";
     PVDeleteWaitPeriod := (3 * second)%Z;
     PodDeleteWaitPeriod := (3 * second)%Z;
     formatSeconds d :=
       pretty (d / second)%Z +:+ "." +:+ twoDigits ((d / 10000000) `mod` 100)%Z |}.

Record Cluster := {
  registry : gmap string VolumeExternal;
  pvCache : gmap string Object;
  pvcCache : list PersistentVolumeClaim;
  pods : list Pod;
  controllerRuns : bool;
}.

Definition notFound (what name : string) : error :=
  StatusError StatusReasonNotFound (what +:+ " " +:+ name +:+ " not found").

Definition isPVC (name namespace : string) (pvc : PersistentVolumeClaim) : bool :=
  bool_decide (pvc_Name pvc = name) && bool_decide (pvc_Namespace pvc = namespace).

Definition isPod (namespace name : string) (pod : Pod) : bool :=
  bool_decide (pod_Name pod = name)
  && bool_decide (Namespace (pod_ObjectMeta pod) = namespace).

Definition withPVs (pvs : gmap string Object) (c : Cluster) : Cluster :=
  {| registry := registry c; pvCache := pvs; pvcCache := pvcCache c;
     pods := pods c; controllerRuns := controllerRuns c |}.

Definition withPVCs (pvcs : list PersistentVolumeClaim) (c : Cluster) : Cluster :=
  {| registry := registry c; pvCache := pvCache c; pvcCache := pvcs;
     pods := pods c; controllerRuns := controllerRuns c |}.

Definition withPods (ps : list Pod) (c : Cluster) : Cluster :=
  {| registry := registry c; pvCache := pvCache c; pvcCache := pvcCache c;
     pods := ps; controllerRuns := controllerRuns c |}.

Definition markDeleted (pv : PersistentVolume) : PersistentVolume :=
  let m := pv_ObjectMeta pv in
  pvSetMeta
    {| Name := Name m; Namespace := Namespace m; UID := UID m;
       ResourceVersion := ResourceVersion m; DeletionTimestamp := Some 1%Z;
       Labels := Labels m; Annotations := Annotations m;
       OwnerReferences := OwnerReferences m; Finalizers := Finalizers m |} pv.

Definition deletePV (name : string) (c : Cluster) : Cluster * option error :=
  match pvCache c !! name with
  | None => (c, Some (notFound "persistentvolumes" name))
  | Some (ObjPV pv) =>
      if decide (0 < len (Finalizers (pv_ObjectMeta pv)))
      then (withPVs (<[name := ObjPV (markDeleted pv)]> (pvCache c)) c, None)
      else (withPVs (delete name (pvCache c)) c, None)
  | Some _ => (withPVs (delete name (pvCache c)) c, None)
  end.

Definition createPV (pv : PersistentVolume) (c : Cluster)
    : Cluster * (error + PersistentVolume) :=
  match pvCache c !! pv_Name pv with
  | Some _ => (c, inl (StatusError "AlreadyExists" "persistentvolume already exists"))
  | None => (withPVs (<[pv_Name pv := ObjPV pv]> (pvCache c)) c, inr pv)
  end.

Definition setPhase (phase : string) (pvc : PersistentVolumeClaim)
    : PersistentVolumeClaim :=
  {| pvc_ObjectMeta := pvc_ObjectMeta pvc; pvc_VolumeName := pvc_VolumeName pvc;
     pvc_StorageClassName := pvc_StorageClassName pvc; pvc_Phase := phase |}.

Definition collectable (o : Object) : bool :=
  match o with
  | ObjPV pv =>
      bool_decide (DeletionTimestamp (pv_ObjectMeta pv) ≠ None)
      && bool_decide (len (Finalizers (pv_ObjectMeta pv)) = 0)
  | _ => false
  end.

Definition reconcile (pvs : gmap string Object) (pvc : PersistentVolumeClaim)
    : PersistentVolumeClaim :=
  match pvs !! pvc_VolumeName pvc with
  | Some (ObjPV _) =>
      if bool_decide (pvc_Phase pvc = ClaimLost)
         && bool_decide (lookup_key (Annotations (pvc_ObjectMeta pvc))
                                    (AnnBindCompleted constants) = None)
      then setPhase ClaimBound pvc else pvc
  | _ => if bool_decide (pvc_Phase pvc = ClaimBound) then setPhase ClaimLost pvc else pvc
  end.

Definition tick (c : Cluster) : Cluster :=
  let pvs := filter (λ kv, collectable kv.2 = false) (pvCache c) in
  let pvcs := if controllerRuns c then reconcile pvs <$> pvcCache c else pvcCache c in
  withPVCs pvcs (withPVs pvs c).

Definition plugin : Plugin Cluster :=
  {| orchestrator_GetVolume name c :=
       match registry c !! name with
       | Some volume => inr volume
       | None => inl (Errorf ("volume " +:+ name +:+ " not found"))
       end;
     getCachedPVByName name c :=
       match pvCache c !! name with
       | Some (ObjPV pv) => inr pv
       | Some _ => inl (Errorf ("non-PV object " +:+ name +:+ " found in cache"))
       | None => inl (Errorf ("PV " +:+ name +:+ " not found in cache"))
       end;
     getCachedPVCByName name namespace c :=
       match List.find (isPVC name namespace) (pvcCache c) with
       | Some pvc => inr pvc
       | None => inl (Errorf ("PVC " +:+ namespace +:+ "/" +:+ name +:+ " not found in cache"))
       end;
     pvIndexer_GetByKey name c :=
       (pvCache c !! name, bool_decide (is_Some (pvCache c !! name)), None);
     Pods_List namespace c :=
       inr {| Items := Some (List.filter
                               (λ pod, bool_decide (Namespace (pod_ObjectMeta pod) = namespace))
                               (pods c)) |};
     Pods_Get namespace name c :=
       match List.find (isPod namespace name) (pods c) with
       | Some pod => (Some pod, None)
       | None => (None, Some (notFound "pods" name))
       end;
     Pods_Delete namespace name c :=
       match List.find (isPod namespace name) (pods c) with
       | Some _ =>
           (withPods (List.filter (λ pod, negb (isPod namespace name pod)) (pods c)) c, None)
       | None => (c, Some (notFound "pods" name))
       end;
     PersistentVolumes_Delete := deletePV;
     PersistentVolumes_Create := createPV;
     patchPV pv pvClone c :=
       (withPVs (<[pv_Name pvClone := ObjPV pvClone]> (pvCache c)) c, inr pvClone);
     patchPVC pvc pvcClone c :=
       (withPVCs ((λ x, if isPVC (pvc_Name pvc) (pvc_Namespace pvc) x then pvcClone else x)
                    <$> pvcCache c) c,
        inr pvcClone);
     sleep _ := tick;
     backoffIntervals d _ := replicate (Z.to_nat (d / second)) second |}.

(** *** The objects of the end-to-end scenario *)

Definition meta (name namespace : string) : ObjectMeta :=
  {| Name := name; Namespace := namespace; UID := "uid-" +:+ name;
     ResourceVersion := "1"; DeletionTimestamp := None; Labels := None;
     Annotations := None; OwnerReferences := None; Finalizers := None |}.

Definition vol1 : VolumeExternal :=
  {| Config := {| config_Name := "vol1"; config_InternalName := "trident_vol1";
                  config_Size := "1Gi"; config_Protocol := "file";
                  config_StorageClass := "gold" |};
     Backend := "nas1"; BackendUUID := "b-42"; Pool := "aggr1";
     Orphaned := false; State := "online" |}.

Definition nfs1 : NFSVolumeSource :=
  {| nfs_Server := "10.0.0.1"; nfs_Path := "/trident_vol1"; nfs_ReadOnly := true |}.

Definition iscsi1 : ISCSIPersistentVolumeSource :=
  {| iscsi_TargetPortal := "10.0.0.2:3260"; iscsi_IQN := "iqn.1992-08.com.netapp:x";
     iscsi_Lun := 0; iscsi_FSType := "ext4"; iscsi_ReadOnly := false |}.

Definition legacyPV (nfs : option NFSVolumeSource)
    (iscsi : option ISCSIPersistentVolumeSource) (finalizers : slice string)
    : PersistentVolume :=
  {| pv_ObjectMeta :=
       setFinalizers finalizers
         (setAnnotations
            (Some {[ AnnDynamicallyProvisioned constants := LegacyProvisioner constants ]})
            (meta "vol1" ""));
     pv_Spec := {| spec_Capacity := "1Gi"; spec_NFS := nfs; spec_ISCSI := iscsi;
                   spec_CSI := None;
                   spec_ClaimRef := Some {| ref_Namespace := "ns"; ref_Name := "pvc1" |};
                   spec_StorageClassName := "gold" |};
     pv_Phase := VolumeBound |}.

Definition pv1 : PersistentVolume :=
  legacyPV (Some nfs1) None (Some [FinalizerPVProtection constants]).

Definition pvc1 : PersistentVolumeClaim :=
  {| pvc_ObjectMeta :=
       setAnnotations
         (Some (<[ AnnBindCompleted constants := "yes" ]>
                  {[ "volume.beta.kubernetes.io/storage-provisioner" := "netapp.io/trident" ]}))
         (meta "pvc1" "ns");
     pvc_VolumeName := "vol1"; pvc_StorageClassName := "gold";
     pvc_Phase := ClaimBound |}.

Definition podUsing (name : string) (owners : slice OwnerReference) (claims : list string)
    : Pod :=
  {| pod_ObjectMeta :=
       let m := meta name "ns" in
       {| Name := Name m; Namespace := Namespace m; UID := UID m;
          ResourceVersion := ResourceVersion m; DeletionTimestamp := None;
          Labels := None; Annotations := None; OwnerReferences := owners;
          Finalizers := None |};
     pod_Volumes :=
       Some ((λ c, {| volume_Name := "data-" +:+ c;
                      volume_PersistentVolumeClaim :=
                        Some {| ClaimName := c; claim_ReadOnly := false |} |}) <$> claims);
     pod_Phase := PodRunning |}.

Definition pod1 : Pod :=
  podUsing "pod1" (Some [{| owner_Kind := "ReplicaSet"; owner_Name := "web" |}]) ["pvc1"].

Definition cluster (pv : Object) (ps : list Pod) (runs : bool) : Cluster :=
  {| registry := {[ "vol1" := vol1 ]};
     pvCache := {[ "vol1" := pv ]};
     pvcCache := [pvc1];
     pods := ps;
     controllerRuns := runs |}.

Definition request : UpgradeVolumeRequest :=
  {| request_Type := "csi"; request_Volume := "vol1" |}.

(** A PV that carries both an NFS and an iSCSI source. *)
Definition pvBoth : PersistentVolume :=
  legacyPV (Some nfs1) (Some iscsi1) None.

(** A PV whose deletion was requested earlier and that has no finalizers. *)
Definition pvMarked : PersistentVolume :=
  markDeleted (legacyPV (Some nfs1) None None).

(** Two pods without owners; the first mounts the claim twice. *)
Definition naked1 : Pod := podUsing "naked1" None ["pvc1"; "pvc1"].
Definition naked2 : Pod := podUsing "naked2" (Some []) ["pvc1"].

(** The end-to-end scenario. *)
Definition healthy : Cluster := cluster (ObjPV pv1) [pod1] true.

(** The same with a PV controller that never reconciles the claim. *)
Definition stuck : Cluster := cluster (ObjPV pv1) [pod1] false.

Definition withBoth : Cluster := cluster (ObjPV pvBoth) [pod1] true.

Definition withNaked : Cluster := cluster (ObjPV pv1) [pod1; naked1; naked2] true.

Definition withMarked : Cluster := cluster (ObjPV pvMarked) [] true.

(** A PV cache that holds a claim under the name of the PV. *)
Definition corrupted : Cluster := cluster (ObjPVC pvc1) [] true.

(** A cluster in which nobody asks for the deletion of the PV. *)
Definition untouched : Cluster := cluster (ObjPV pv1) [] true.

(** A PV with an iSCSI source only. *)
Definition pvISCSI : PersistentVolume := legacyPV None (Some iscsi1) None.

(** A PV held by a finalizer other than pv-protection. *)
Definition pvHeld : PersistentVolume :=
  legacyPV (Some nfs1) None (Some ["example.com/hold"]).

Definition withHeld : Cluster := cluster (ObjPV pvHeld) [pod1] true.

(** A bound PV without a claim reference. *)
Definition pvUnclaimed : PersistentVolume :=
  pvSetSpec
    {| spec_Capacity := "1Gi"; spec_NFS := Some nfs1; spec_ISCSI := None;
       spec_CSI := None; spec_ClaimRef := None; spec_StorageClassName := "gold" |}
    pv1.

Definition withUnclaimed : Cluster := cluster (ObjPV pvUnclaimed) [] true.

End Sim.


(** ** Reference definitions for the pod lists

    What the two lists of [getPodsForPVC] should hold, stated directly:
    each pod contributes its name once per volume entry that references
    the claim by name, to the standalone list when it has no owner
    references and to the owned list otherwise. *)

Definition referencesClaim (pvc : PersistentVolumeClaim) (volume : Volume) : bool :=
  match volume_PersistentVolumeClaim volume with
  | Some source => bool_decide (ClaimName source = pvc_Name pvc)
  | None => false
  end.

Definition isNaked (pod : Pod) : bool :=
  bool_decide (len (OwnerReferences (pod_ObjectMeta pod)) = 0).

Definition occurrences (pvc : PersistentVolumeClaim) (pod : Pod) : list string :=
  replicate (length (List.filter (referencesClaim pvc) (range (pod_Volumes pod))))
            (pod_Name pod).

Definition nakedOccurrences (pvc : PersistentVolumeClaim) (pods : list Pod)
    : list string :=
  pods ≫= (λ pod, if isNaked pod then occurrences pvc pod else []).

Definition ownedOccurrences (pvc : PersistentVolumeClaim) (pods : list Pod)
    : list string :=
  pods ≫= (λ pod, if isNaked pod then [] else occurrences pvc pod).

(** * Properties *)

(** ** The monad *)

Section MonadLaws.

Context {W : Type}.

Lemma bind_ret {A B} (a : A) (k : A → M W B) (s : Exec W) :
  (mret a ≫= k) s = k a s.
Proof. reflexivity. Qed.

Lemma bind_query {A B} (f : W → A) (k : A → M W B) (s : Exec W) :
  (query f ≫= k) s = k (f (world s)) s.
Proof. reflexivity. Qed.

Lemma bind_mutate {A B} (c : ApiCall) (f : W → W * A) (k : A → M W B) (s : Exec W) :
  (mutate c f ≫= k) s =
  k (f (world s)).2
    {| world := (f (world s)).1; calls := calls s ++ [c]; waits := waits s |}.
Proof.
  unfold mbind, M_bind, mutate. destruct (f (world s)) as [w a]. reflexivity.
Qed.

Lemma bind_val {A B} (m : M W A) (k : A → M W B) (s s1 : Exec W) (a : A) :
  m s = (s1, Val a) → (m ≫= k) s = k a s1.
Proof. intros H. unfold mbind, M_bind. rewrite H. reflexivity. Qed.

(** A sequence that returns a value ran its first part to a value. *)
Lemma bind_inv {A B} (m : M W A) (k : A → M W B) (s s2 : Exec W) (b : B) :
  (m ≫= k) s = (s2, Val b) →
  ∃ s1 a, m s = (s1, Val a) ∧ k a s1 = (s2, Val b).
Proof.
  unfold mbind, M_bind. destruct (m s) as [s1 [a|]]; intros H.
  - eauto.
  - discriminate.
Qed.

End MonadLaws.

(** ** Go values *)

Lemma append_nil_r (s : string) : s +:+ "" = s.
Proof.
  induction s as [|c s IH]; [done|].
  change (String c (s +:+ "") = String c s). by rewrite IH.
Qed.

Lemma append_assoc (s1 s2 s3 : string) : (s1 +:+ s2) +:+ s3 = s1 +:+ s2 +:+ s3.
Proof.
  induction s1 as [|c s1 IH]; [done|].
  change (String c ((s1 +:+ s2) +:+ s3) = String c (s1 +:+ s2 +:+ s3)).
  by rewrite IH.
Qed.

Lemma Join_contains (elems : list string) (sep x : string) :
  x ∈ elems → ∃ before after, Join elems sep = before +:+ x +:+ after.
Proof.
  induction elems as [|y rest IH]; intros Hin.
  - inversion Hin.
  - apply elem_of_cons in Hin as [->|Hin].
    + destruct rest as [|z rest].
      * exists "", "". by rewrite append_nil_r.
      * exists "", (sep +:+ Join (z :: rest) sep). reflexivity.
    + destruct (IH Hin) as (before & after & Heq).
      destruct rest as [|z rest]; [inversion Hin|].
      exists (y +:+ sep +:+ before), after.
      change (Join (y :: z :: rest) sep) with (y +:+ sep +:+ Join (z :: rest) sep).
      rewrite Heq. by rewrite !append_assoc.
Qed.

(** ** getPodsForPVC *)

Section PodLists.

Variable pvc : PersistentVolumeClaim.

Lemma naked_condition (pod : Pod) :
  bool_decide (OwnerReferences (pod_ObjectMeta pod) = None)
  || bool_decide (len (OwnerReferences (pod_ObjectMeta pod)) = 0) = isNaked pod.
Proof.
  unfold isNaked. destruct (OwnerReferences (pod_ObjectMeta pod)) as [l|]; reflexivity.
Qed.

Lemma visitVolume_spec (pod : Pod) (owned naked : list string) (volume : Volume) :
  visitVolume pvc pod (owned, naked) volume =
  if referencesClaim pvc volume
  then if isNaked pod then (owned, naked ++ [pod_Name pod])
       else (owned ++ [pod_Name pod], naked)
  else (owned, naked).
Proof.
  unfold visitVolume, referencesClaim.
  destruct (volume_PersistentVolumeClaim volume) as [source|]; [|reflexivity].
  rewrite naked_condition.
  destruct (decide (ClaimName source = pvc_Name pvc)) as [Heq|Hne].
  - by rewrite bool_decide_eq_true_2.
  - by rewrite bool_decide_eq_false_2.
Qed.

Lemma inner_loop_spec (pod : Pod) (volumes : list Volume) (owned naked : list string) :
  foldl (visitVolume pvc pod) (owned, naked) volumes =
  let names := replicate (length (List.filter (referencesClaim pvc) volumes))
                         (pod_Name pod) in
  if isNaked pod then (owned, naked ++ names) else (owned ++ names, naked).
Proof.
  revert owned naked.
  induction volumes as [|volume volumes IH]; intros owned naked.
  - simpl. rewrite !app_nil_r. by destruct (isNaked pod).
  - change (foldl (visitVolume pvc pod) (owned, naked) (volume :: volumes))
      with (foldl (visitVolume pvc pod) (visitVolume pvc pod (owned, naked) volume) volumes).
    rewrite visitVolume_spec. cbn [List.filter].
    destruct (referencesClaim pvc volume); [|apply IH].
    destruct (isNaked pod) eqn:Hnaked; rewrite IH; cbn zeta;
      rewrite <- app_assoc; reflexivity.
Qed.

Lemma outer_loop_spec (pods : list Pod) (owned naked : list string) :
  foldl (λ lists pod, foldl (visitVolume pvc pod) lists (range (pod_Volumes pod)))
        (owned, naked) pods =
  (owned ++ ownedOccurrences pvc pods, naked ++ nakedOccurrences pvc pods).
Proof.
  revert owned naked.
  induction pods as [|pod pods IH]; intros owned naked.
  - simpl. by rewrite !app_nil_r.
  - cbn [foldl]. rewrite inner_loop_spec. cbn zeta. fold (occurrences pvc pod).
    unfold ownedOccurrences, nakedOccurrences in *. cbn [mbind list_bind].
    destruct (isNaked pod) eqn:Hnaked; rewrite IH;
      rewrite ?app_nil_l, ?app_assoc; reflexivity.
Qed.

End PodLists.

Section Properties.

Context {W : Type}.
Variable p : Plugin W.
Variable K : Constants.

(** C9: for the pods that the listing of the claim's namespace returns,
    [getPodsForPVC] returns as owned and naked lists exactly the reference
    lists: each pod's name once per volume entry that references the claim
    by name, in the naked list when the pod has no owner references and in
    the owned list otherwise; a failed listing is returned as it is. The
    call changes nothing. *)
Theorem getPodsForPVC_occurrences (pvc : PersistentVolumeClaim) (s : Exec W) :
  getPodsForPVC p pvc s =
  (s, Val match Pods_List p (pvc_Namespace pvc) (world s) with
          | inl err => inl err
          | inr podList =>
              inr (ownedOccurrences pvc (range (Items podList)),
                   nakedOccurrences pvc (range (Items podList)))
          end).
Proof.
  unfold getPodsForPVC. rewrite bind_query.
  destruct (Pods_List p (pvc_Namespace pvc) (world s)) as [err|podList]; [done|].
  destruct (Items podList) as [items|]; [|done].
  simpl range. by rewrite outer_loop_spec.
Qed.

(** ** removePVCBindCompletedAnnotation *)

Lemma copy_loop_skipped (l : list (string * string)) (clone : gmap string string) :
  foldl (λ clone '(k, v),
           if decide (k ≠ AnnBindCompleted K) then <[k := v]> clone else clone)
        clone l !! AnnBindCompleted K
  = clone !! AnnBindCompleted K.
Proof.
  revert clone. induction l as [|[k v] l IH]; intros clone; [done|].
  cbn [foldl]. rewrite IH.
  destruct (decide (k ≠ AnnBindCompleted K)); [|done].
  by rewrite lookup_insert_ne.
Qed.

Lemma copy_loop_missing (l : list (string * string)) (clone : gmap string string)
    (key : string) :
  key ∉ l.*1 →
  foldl (λ clone '(k, v),
           if decide (k ≠ AnnBindCompleted K) then <[k := v]> clone else clone)
        clone l !! key
  = clone !! key.
Proof.
  revert clone. induction l as [|[k v] l IH]; intros clone Hnot; [done|].
  cbn [foldl]. rewrite fmap_cons, not_elem_of_cons in Hnot.
  destruct Hnot as [Hne Hnot]. simpl in Hne. rewrite (IH _ Hnot).
  destruct (decide (k ≠ AnnBindCompleted K)); [|done].
  by rewrite lookup_insert_ne.
Qed.

Lemma copy_loop_copied (l : list (string * string)) (clone : gmap string string)
    (key value : string) :
  NoDup l.*1 → (key, value) ∈ l → key ≠ AnnBindCompleted K →
  foldl (λ clone '(k, v),
           if decide (k ≠ AnnBindCompleted K) then <[k := v]> clone else clone)
        clone l !! key
  = Some value.
Proof.
  revert clone. induction l as [|[k v] l IH]; intros clone Hdup Hin Hkey.
  - inversion Hin.
  - rewrite fmap_cons, NoDup_cons in Hdup. destruct Hdup as [Hfresh Hdup].
    cbn [foldl]. apply elem_of_cons in Hin as [Heq|Hin].
    + injection Heq as <- <-. rewrite copy_loop_missing by done.
      rewrite decide_True by done. by rewrite lookup_insert_eq.
    + by apply IH.
Qed.

Lemma copyAnnotations_lookup (annotations : gomap) (key : string) :
  copyAnnotations K annotations !! key =
  if decide (key = AnnBindCompleted K) then None else lookup_key annotations key.
Proof.
  unfold copyAnnotations, lookup_key. destruct annotations as [g|].
  - destruct (decide (key = AnnBindCompleted K)) as [->|Hne].
    + by rewrite copy_loop_skipped.
    + destruct (g !! key) as [value|] eqn:Hg.
      * apply copy_loop_copied; [apply NoDup_fst_map_to_list| |done].
        by apply elem_of_map_to_list.
      * rewrite copy_loop_missing; [done|].
        intros Hin. apply list_elem_of_fmap in Hin as ([k v] & -> & Hin).
        apply elem_of_map_to_list in Hin. simpl in Hg. congruence.
  - by destruct (decide _).
Qed.

(** C10: [removePVCBindCompletedAnnotation] issues one patch of the claim,
    from the claim it was given to a clone in which every annotation other
    than bind-completed is present with its original value, the
    bind-completed key is absent, and every field other than the
    annotations is that of the claim (putting the original annotations back
    gives the original claim). It returns what the patch returns. *)
Theorem removePVCBindCompletedAnnotation_frame (pvc : PersistentVolumeClaim)
    (s : Exec W) :
  let pvcClone := pvcCloneWithoutBindCompleted K pvc in
  removePVCBindCompletedAnnotation p K pvc s =
    ({| world := (patchPVC p pvc pvcClone (world s)).1;
        calls := calls s ++ [PatchPVCCall pvc pvcClone];
        waits := waits s |},
     Val (patchPVC p pvc pvcClone (world s)).2)
  ∧ (∀ key, key ≠ AnnBindCompleted K →
       lookup_key (Annotations (pvc_ObjectMeta pvcClone)) key
       = lookup_key (Annotations (pvc_ObjectMeta pvc)) key)
  ∧ lookup_key (Annotations (pvc_ObjectMeta pvcClone)) (AnnBindCompleted K) = None
  ∧ pvcSetMeta (setAnnotations (Annotations (pvc_ObjectMeta pvc))
                               (pvc_ObjectMeta pvcClone)) pvcClone = pvc.
Proof.
  intros pvcClone. split; [|split; [|split]].
  - unfold removePVCBindCompletedAnnotation. fold pvcClone. rewrite bind_mutate.
    by destruct (patchPVC p pvc pvcClone (world s)).2.
  - intros key Hne. subst pvcClone. cbn.
    rewrite copyAnnotations_lookup. by rewrite decide_False.
  - subst pvcClone. cbn. rewrite copyAnnotations_lookup. by rewrite decide_True.
  - subst pvcClone. destruct pvc as [[] ? ? ?]. reflexivity.
Qed.

(** ** createCSIPVFromPV *)

Lemma createCSIPVFromPV_call (pv : PersistentVolume) (volume : VolumeExternal)
    (s : Exec W) :
  createCSIPVFromPV p K pv volume s =
  ({| world := (PersistentVolumes_Create p (csiPVFromPV K pv volume) (world s)).1;
      calls := calls s ++ [CreatePVCall (csiPVFromPV K pv volume)];
      waits := waits s |},
   Val (PersistentVolumes_Create p (csiPVFromPV K pv volume) (world s)).2).
Proof.
  unfold createCSIPVFromPV. rewrite bind_mutate.
  by destruct (PersistentVolumes_Create p (csiPVFromPV K pv volume) (world s)).2.
Qed.

(** C4: for a PV with an NFS source whose read-only flag is set and any
    Trident volume, [createCSIPVFromPV] submits for creation a PV whose
    CSI source has read-only set, the empty filesystem type, the name of
    the original PV as volume handle, and an attribute map with exactly
    the keys backendUUID, name, internalName and protocol, bound to the
    Trident volume's backend UUID, name, internal name and protocol; the
    attribute map is the same for every PV converted with that volume. *)
Theorem createCSIPVFromPV_nfs_readonly (pv : PersistentVolume)
    (volume : VolumeExternal) (nfs : NFSVolumeSource) (s : Exec W) :
  spec_NFS (pv_Spec pv) = Some nfs →
  nfs_ReadOnly nfs = true →
  ∃ csi attributes,
    calls (createCSIPVFromPV p K pv volume s).1
      = calls s ++ [CreatePVCall (csiPVFromPV K pv volume)]
    ∧ spec_CSI (pv_Spec (csiPVFromPV K pv volume)) = Some csi
    ∧ csi_ReadOnly csi = true
    ∧ csi_FSType csi = ""
    ∧ csi_VolumeHandle csi = pv_Name pv
    ∧ csi_VolumeAttributes csi = Some attributes
    ∧ dom attributes = {[ "backendUUID"; "name"; "internalName"; "protocol" ]}
    ∧ attributes !! "backendUUID" = Some (BackendUUID volume)
    ∧ attributes !! "name" = Some (config_Name (Config volume))
    ∧ attributes !! "internalName" = Some (config_InternalName (Config volume))
    ∧ attributes !! "protocol" = Some (config_Protocol (Config volume))
    ∧ ∀ pv', csi_VolumeAttributes (csiSourceFromPV K pv' volume) = Some attributes.
Proof.
  intros Hnfs Hro.
  exists (csiSourceFromPV K pv volume).
  eexists. rewrite createCSIPVFromPV_call.
  split; [reflexivity|]. split; [reflexivity|].
  unfold csiSourceFromPV at 1 2 3 4. rewrite Hnfs, Hro. cbn.
  split; [reflexivity|]. split; [reflexivity|]. split; [reflexivity|].
  split; [reflexivity|].
  split; [rewrite !dom_insert_L, dom_empty_L; set_solver|].
  repeat split; try done.
  intros pv'. unfold csiSourceFromPV.
  by destruct (spec_NFS (pv_Spec pv')), (spec_ISCSI (pv_Spec pv')).
Qed.

(** ** The poller *)

Lemma RetryNotify_unfold {L} (operation : L → M W (L * option error))
    (b : list Duration) (l : L) (s : Exec W) :
  RetryNotify p operation b l s =
  match operation l s with
  | (s', Val (l', None)) => (s', Val (l', None))
  | (s', Val (l', Some (PermanentError permanent))) => (s', Val (l', Some permanent))
  | (s', Val (l', Some err)) =>
      match b with
      | [] => (s', Val (l', Some err))
      | next :: b' => RetryNotify p operation b' l' (Sleep p next s').1
      end
  | (s', Panic) => (s', Panic)
  end.
Proof.
  destruct b; cbn [RetryNotify]; unfold mbind, M_bind;
    destruct (operation l s) as [s' [[l' [[]|]]|]]; reflexivity.
Qed.

Lemma afterSleeps_cons (d : Duration) (b : list Duration) (s : Exec W) :
  afterSleeps p (d :: b) s = afterSleeps p b (Sleep p d s).1.
Proof. reflexivity. Qed.

Lemma afterSleeps_calls (b : list Duration) (s : Exec W) :
  calls (afterSleeps p b s) = calls s.
Proof.
  revert s. induction b as [|d b IH]; intros s; [done|].
  rewrite afterSleeps_cons, IH. reflexivity.
Qed.

Lemma afterSleeps_waits (b : list Duration) (s : Exec W) :
  waits (afterSleeps p b s) = waits s ++ b.
Proof.
  revert s. induction b as [|d b IH]; intros s.
  - by rewrite app_nil_r.
  - rewrite afterSleeps_cons, IH. cbn. by rewrite <- app_assoc.
Qed.

(** A condition that only reads and signals success succeeds at once. *)
Lemma RetryNotify_immediate {L} (operation : L → M W (L * option error))
    (b : list Duration) (l l' : L) (s : Exec W) :
  operation l s = (s, Val (l', None)) →
  RetryNotify p operation b l s = (s, Val (l', None)).
Proof. intros H. rewrite RetryNotify_unfold, H. reflexivity. Qed.

(** When the condition fails with a plain error at every poll, the poller
    sleeps through the whole back-off and returns a plain error. *)
Lemma RetryNotify_exhausted {L} (operation : L → M W (L * option error))
    (fails : W → Prop) (b : list Duration) (l : L) (s : Exec W) :
  (∀ l s, fails (world s) →
          ∃ l' msg, operation l s = (s, Val (l', Some (Errorf msg)))) →
  atEveryPoll p fails b (world s) →
  ∃ l' msg,
    RetryNotify p operation b l s = (afterSleeps p b s, Val (l', Some (Errorf msg))).
Proof.
  intros Hop. revert l s.
  induction b as [|d b IH]; intros l s [Hnow Hlater];
    destruct (Hop l s Hnow) as (l' & msg & Hrun);
    rewrite RetryNotify_unfold, Hrun.
  - by exists l', msg.
  - rewrite afterSleeps_cons. by apply IH.
Qed.

(** When the condition fails at every poll, whatever the errors, the
    poller returns an error and no API call is made meanwhile. *)
Lemma RetryNotify_fails {L} (operation : L → M W (L * option error))
    (fails : W → Prop) (b : list Duration) (l : L) (s : Exec W) :
  (∀ l s, fails (world s) → ∃ l' err, operation l s = (s, Val (l', Some err))) →
  atEveryPoll p fails b (world s) →
  ∃ s' l' err,
    RetryNotify p operation b l s = (s', Val (l', Some err)) ∧ calls s' = calls s.
Proof.
  intros Hop. revert l s.
  induction b as [|d b IH]; intros l s [Hnow Hlater];
    destruct (Hop l s Hnow) as (l' & err & Hrun);
    rewrite RetryNotify_unfold, Hrun.
  - destruct err; eauto.
  - destruct err; eauto;
      destruct (IH l' (Sleep p d s).1 Hlater) as (s' & l2 & err' & -> & Hcalls);
      eauto.
Qed.

(** When a read-only condition lets the poller return success, the
    condition held in the final state, and no API call was made. *)
Lemma RetryNotify_success_inv {L} (operation : L → M W (L * option error))
    (b : list Duration) (l l1 : L) (s s1 : Exec W) :
  (∀ l s, (operation l s).1 = s) →
  RetryNotify p operation b l s = (s1, Val (l1, None)) →
  (∃ l0, operation l0 s1 = (s1, Val (l1, None))) ∧ calls s1 = calls s.
Proof.
  intros Hread. revert l s.
  induction b as [|d b IH]; intros l s; rewrite RetryNotify_unfold;
    specialize (Hread l s) as Hs;
    destruct (operation l s) as [s' [[l' [err|]]|]] eqn:Hop; simpl in Hs; subst s';
    try destruct err; try discriminate.
  - intros [= <- <-]. eauto.
  - intros H. by apply IH in H.
  - intros H. by apply IH in H.
  - intros [= <- <-]. eauto.
Qed.

(** ** The waiters *)

Lemma checkForGonePV_spec (name : string) (u : unit) (s : Exec W) :
  checkForGonePV p name u s =
  (s, Val ((),
           match pvIndexer_GetByKey p name (world s) with
           | (_, _, Some err) => Some err
           | (_, false, None) => None
           | (item, true, None) =>
               match item ≫= assertPV with
               | None => Some (Errorf ("non-PV object " +:+ name +:+ " found in cache"))
               | Some _ => Some (Errorf ("PV " +:+ name +:+ " still exists"))
               end
           end)).
Proof.
  unfold checkForGonePV. rewrite bind_query.
  destruct (pvIndexer_GetByKey p name (world s)) as [[item [|]] [err|]]; try done.
  by destruct (item ≫= assertPV).
Qed.

Lemma checkForDeletedPV_spec (name : string) (pv : option PersistentVolume)
    (s : Exec W) :
  checkForDeletedPV p name pv s =
  (s, Val match pvIndexer_GetByKey p name (world s) with
          | (_, _, Some err) => (None, Some err)
          | (_, false, None) => (None, None)
          | (item, true, None) =>
              match item ≫= assertPV with
              | None =>
                  (None, Some (Errorf ("non-PV object " +:+ name +:+ " found in cache")))
              | Some pv =>
                  if decide (DeletionTimestamp (pv_ObjectMeta pv) = None)
                  then (Some pv,
                        Some (Errorf ("PV " +:+ name +:+ " deletion timestamp not set")))
                  else (Some pv, None)
              end
          end).
Proof.
  unfold checkForDeletedPV. rewrite bind_query.
  destruct (pvIndexer_GetByKey p name (world s)) as [[item [|]] [err|]]; try done.
  destruct (item ≫= assertPV) as [pv'|]; [|done].
  by destruct (decide _).
Qed.

Lemma checkForGonePV_mismatch (name : string) (u : unit) (s : Exec W) :
  typeMismatch p name (world s) →
  ∃ u' msg, checkForGonePV p name u s = (s, Val (u', Some (Errorf msg))).
Proof.
  intros (item & Hget & Hitem). rewrite checkForGonePV_spec, Hget, Hitem. eauto.
Qed.

Lemma checkForDeletedPV_mismatch (name : string) (pv : option PersistentVolume)
    (s : Exec W) :
  typeMismatch p name (world s) →
  ∃ pv' msg, checkForDeletedPV p name pv s = (s, Val (pv', Some (Errorf msg))).
Proof.
  intros (item & Hget & Hitem). rewrite checkForDeletedPV_spec, Hget, Hitem. eauto.
Qed.

(** C3 (as the code has it): when the cached lookup yields an entry that
    is not a PV at every poll, neither waiter stops early: each sleeps
    through every interval of its back-off and then returns its own
    time-out error, not the error of the type mismatch. *)
Theorem type_mismatch_is_retried (name : string) (maxElapsedTime : Duration)
    (s : Exec W) :
  atEveryPoll p (typeMismatch p name)
              (backoffIntervals p maxElapsedTime (world s)) (world s) →
  waitForPVDisappearance p K name maxElapsedTime s =
    (afterSleeps p (backoffIntervals p maxElapsedTime (world s)) s,
     Val (Some (Errorf ("PV " +:+ name +:+ " was not fully deleted after "
                        +:+ formatSeconds K maxElapsedTime +:+ " seconds"))))
  ∧ waitForDeletedPV p K name maxElapsedTime s =
    (afterSleeps p (backoffIntervals p maxElapsedTime (world s)) s,
     Val (None,
          Some (Errorf ("PV " +:+ name +:+ " was not deleted after "
                        +:+ formatSeconds K maxElapsedTime +:+ " seconds")))).
Proof.
  intros Hpolls. split.
  - unfold waitForPVDisappearance. rewrite bind_query.
    destruct (RetryNotify_exhausted (checkForGonePV p name) _ _ () s
                (checkForGonePV_mismatch name) Hpolls) as (u & msg & Hrun).
    by rewrite (bind_val _ _ _ _ _ Hrun).
  - unfold waitForDeletedPV. rewrite bind_query.
    destruct (RetryNotify_exhausted (checkForDeletedPV p name) _ _ None s
                (checkForDeletedPV_mismatch name) Hpolls) as (pv & msg & Hrun).
    by rewrite (bind_val _ _ _ _ _ Hrun).
Qed.

(** ** deletePVForUpgrade *)

Lemma checkForGonePV_readonly (name : string) (u : unit) (s : Exec W) :
  (checkForGonePV p name u s).1 = s.
Proof. by rewrite checkForGonePV_spec. Qed.

Lemma checkForGonePV_success (name : string) (u u' : unit) (s : Exec W) :
  checkForGonePV p name u s = (s, Val (u', None)) ↔ absentFromCache p name (world s).
Proof.
  rewrite checkForGonePV_spec. unfold absentFromCache.
  destruct (pvIndexer_GetByKey p name (world s)) as [[item [|]] [err|]];
    try destruct (item ≫= assertPV); destruct u'; split;
    try (intros [= ]); try (intros [? [= ]]); eauto.
Qed.

Lemma waitForPVDisappearance_success (name : string) (maxElapsedTime : Duration)
    (s s1 : Exec W) :
  waitForPVDisappearance p K name maxElapsedTime s = (s1, Val None) →
  absentFromCache p name (world s1) ∧ calls s1 = calls s.
Proof.
  unfold waitForPVDisappearance. rewrite bind_query. intros H.
  apply bind_inv in H as (s' & [u err] & Hrun & Hret).
  destruct err as [err|]; [discriminate|]. injection Hret as <-.
  apply RetryNotify_success_inv in Hrun as [[u0 Hlast] Hcalls];
    [|apply checkForGonePV_readonly].
  split; [|done]. by eapply checkForGonePV_success.
Qed.

Lemma waitForPVDisappearance_absent (name : string) (maxElapsedTime : Duration)
    (s : Exec W) :
  absentFromCache p name (world s) →
  waitForPVDisappearance p K name maxElapsedTime s = (s, Val None).
Proof.
  intros Habsent. unfold waitForPVDisappearance. rewrite bind_query.
  rewrite (bind_val _ _ _ s ((), None)); [done|].
  apply RetryNotify_immediate. by apply checkForGonePV_success.
Qed.

Lemma deletePVForUpgrade_marked (pv : PersistentVolume) (s : Exec W) :
  DeletionTimestamp (pv_ObjectMeta pv) ≠ None →
  len (Finalizers (pv_ObjectMeta pv)) = 0 →
  deletePVForUpgrade p K pv s
  = waitForPVDisappearance p K (pv_Name pv) (PVDeleteWaitPeriod K) s.
Proof.
  intros Hmarked Hfin. unfold deletePVForUpgrade.
  destruct (DeletionTimestamp (pv_ObjectMeta pv)) as [t|]; [|done].
  rewrite Hfin, andb_comm.
  rewrite (bool_decide_eq_false_2 (0 < 0)) by lia. cbn [andb].
  by rewrite bind_ret.
Qed.

(** C5: for a PV that carries a deletion timestamp and no finalizers,
    when [deletePVForUpgrade] returns without error the PV is absent from
    the cache and no API call was made, and a second invocation right
    after it returns without error in the very same state. *)
Theorem deletePVForUpgrade_idempotent (pv : PersistentVolume) (s s1 : Exec W) :
  DeletionTimestamp (pv_ObjectMeta pv) ≠ None →
  len (Finalizers (pv_ObjectMeta pv)) = 0 →
  deletePVForUpgrade p K pv s = (s1, Val None) →
  absentFromCache p (pv_Name pv) (world s1)
  ∧ calls s1 = calls s
  ∧ deletePVForUpgrade p K pv s1 = (s1, Val None).
Proof.
  intros Hmarked Hfin. rewrite !deletePVForUpgrade_marked by done. intros Hrun.
  apply waitForPVDisappearance_success in Hrun as [Habsent Hcalls].
  split; [done|]. split; [done|]. by apply waitForPVDisappearance_absent.
Qed.

(** ** UpgradeVolume *)

(** Exposes the sequencing of the workflow as matches on results. *)
Ltac expose := unfold mbind, M_bind, mret, M_ret, panic, query.
Ltac expose_in H := unfold mbind, M_bind, mret, M_ret, panic, query in H.

(** C1 (as the code has it): when the cached PV has neither an NFS nor an
    iSCSI source, [UpgradeVolume] returns an error and the cluster and the
    histories of API calls and sleeps are as before the call. *)
Theorem UpgradeVolume_rejects_untyped_pv (request : UpgradeVolumeRequest)
    (s : Exec W) (pv : PersistentVolume) :
  getCachedPVByName p (request_Volume request) (world s) = inr pv →
  spec_NFS (pv_Spec pv) = None →
  spec_ISCSI (pv_Spec pv) = None →
  ∃ err, UpgradeVolume p K request s = (s, Val (inl err)).
Proof.
  intros Hpv Hnfs Hiscsi. unfold UpgradeVolume. rewrite bind_query.
  destruct (orchestrator_GetVolume p (request_Volume request) (world s))
    as [err|volume]; [by eexists|].
  destruct (decide (State volume ≠ VolumeStateOnline K)); [by eexists|].
  rewrite bind_query, Hpv. rewrite decide_True by done. by eexists.
Qed.

(** C8: when [UpgradeVolume] returns a volume, it is the volume that the
    orchestrator returns for the requested name in the cluster as it was
    when the workflow started. *)
Theorem UpgradeVolume_returns_fetched_volume (request : UpgradeVolumeRequest)
    (s : Exec W) (volume : VolumeExternal) :
  (UpgradeVolume p K request s).2 = Val (inr volume) →
  orchestrator_GetVolume p (request_Volume request) (world s) = inr volume.
Proof.
  unfold UpgradeVolume. rewrite bind_query.
  destruct (orchestrator_GetVolume p (request_Volume request) (world s))
    as [err|volume']; [discriminate|].
  intros H. f_equal. expose_in H.
  repeat (case_match; try discriminate); simpl in H; congruence.
Qed.

Lemma naked_name_listed (pvc : PersistentVolumeClaim) (pods : list Pod) (pod : Pod) :
  pod ∈ pods →
  isNaked pod = true →
  (∃ volume, volume ∈ range (pod_Volumes pod) ∧ referencesClaim pvc volume = true) →
  pod_Name pod ∈ nakedOccurrences pvc pods.
Proof.
  intros Hin Hnaked (volume & Hvolume & Href).
  unfold nakedOccurrences. apply list_elem_of_bind. exists pod. split; [|done].
  rewrite Hnaked. unfold occurrences. apply elem_of_replicate. split; [done|].
  assert (In volume (List.filter (referencesClaim pvc) (range (pod_Volumes pod))))
    as Hfiltered by (apply filter_In; split; [by apply list_elem_of_In|done]).
  by destruct (List.filter _ _).
Qed.

Lemma nakedPodsMessage_contains (names : list string) (name : string) :
  name ∈ names →
  ∃ before after, nakedPodsMessage names = before +:+ name +:+ after.
Proof.
  intros Hin. destruct (Join_contains names "," name Hin) as (before & after & Heq).
  exists ("PV upgrade: one or more naked pods are using the PV (" +:+ before),
         (after +:+ "); shut down these pods manually and try again").
  unfold nakedPodsMessage. rewrite Heq. by rewrite !append_assoc.
Qed.

(** C7: when the cached PV references a cached claim and the listing of
    the claim's namespace has a pod without owner references with a volume
    entry that references the claim by name, [UpgradeVolume] returns an
    error and the cluster and the histories of API calls and sleeps are as
    before the call; when the checks that come before the search for pods
    pass, that error is the one whose message joins the naked list with
    commas; and this message contains the name of every such pod. *)
Theorem UpgradeVolume_rejects_naked_pods (request : UpgradeVolumeRequest)
    (s : Exec W) (pv : PersistentVolume) (claimRef : ObjectReference)
    (pvc : PersistentVolumeClaim) (podList : PodList) :
  getCachedPVByName p (request_Volume request) (world s) = inr pv →
  spec_ClaimRef (pv_Spec pv) = Some claimRef →
  getCachedPVCByName p (ref_Name claimRef) (ref_Namespace claimRef) (world s)
    = inr pvc →
  Pods_List p (pvc_Namespace pvc) (world s) = inr podList →
  (∃ pod, pod ∈ range (Items podList) ∧ isNaked pod = true
          ∧ ∃ volume, volume ∈ range (pod_Volumes pod)
                      ∧ referencesClaim pvc volume = true) →
  (∃ err, UpgradeVolume p K request s = (s, Val (inl err)))
  ∧ (∀ volume,
       passesEarlyChecks p K request s volume pv claimRef pvc →
       UpgradeVolume p K request s =
         (s, Val (inl (Errorf (nakedPodsMessage
                                 (nakedOccurrences pvc (range (Items podList))))))))
  ∧ ∀ pod, pod ∈ range (Items podList) → isNaked pod = true →
           (∃ volume, volume ∈ range (pod_Volumes pod)
                      ∧ referencesClaim pvc volume = true) →
           ∃ before after,
             nakedPodsMessage (nakedOccurrences pvc (range (Items podList)))
             = before +:+ pod_Name pod +:+ after.
Proof.
  intros Hpv Hclaim Hpvc Hpods (pod & Hin & Hnaked & Href).
  assert (0 < length (nakedOccurrences pvc (range (Items podList)))) as Hsome.
  { pose proof (naked_name_listed pvc _ pod Hin Hnaked Href) as Hlisted.
    destruct (nakedOccurrences pvc (range (Items podList))); [inversion Hlisted|].
    simpl. lia. }
  split; [|split].
  - unfold UpgradeVolume. expose.
    destruct (orchestrator_GetVolume p (request_Volume request) (world s))
      as [err|volume]; [by eexists|].
    destruct (decide (State volume ≠ _)); [by eexists|].
    rewrite Hpv. destruct (decide (_ ∧ _)); [by eexists|].
    destruct (decide (pv_Phase pv ≠ _)); [by eexists|].
    destruct (decide (index _ _ ≠ _)); [by eexists|].
    rewrite Hclaim, Hpvc, getPodsForPVC_occurrences, Hpods.
    rewrite decide_True by done. by eexists.
  - intros volume (Hvol & Honline & _ & Hkind & Hbound & Hprov & _ & _).
    unfold UpgradeVolume. expose.
    rewrite Hvol. destruct (decide (State volume ≠ _)); [done|].
    rewrite Hpv. destruct (decide (_ ∧ _)); [done|].
    destruct (decide (pv_Phase pv ≠ _)); [done|].
    destruct (decide (index _ _ ≠ _)); [done|].
    rewrite Hclaim, Hpvc, getPodsForPVC_occurrences, Hpods.
    by rewrite decide_True.
  - intros pod' Hin' Hnaked' Href'.
    apply nakedPodsMessage_contains. by apply naked_name_listed.
Qed.

(** *** Computations that delete no pod *)

Lemma deletesNoPod_ret {A} (a : A) : deletesNoPod (mret a : M W A).
Proof. by intros s. Qed.

Lemma deletesNoPod_query {A} (f : W → A) : deletesNoPod (query f).
Proof. by intros s. Qed.

Lemma deletesNoPod_Sleep (d : Duration) : deletesNoPod (Sleep p d).
Proof. by intros s. Qed.

Lemma deletesNoPod_mutate {A} (c : ApiCall) (f : W → W * A) :
  isDeletePod c = false → deletesNoPod (mutate c f).
Proof.
  intros Hc s. unfold mutate, podDeletions. destruct (f (world s)) as [w a]. simpl.
  rewrite List.filter_app. simpl. rewrite Hc. by rewrite app_nil_r.
Qed.

Lemma deletesNoPod_bind {A B} (m : M W A) (k : A → M W B) :
  deletesNoPod m → (∀ a, deletesNoPod (k a)) → deletesNoPod (m ≫= k).
Proof.
  intros Hm Hk s. unfold mbind, M_bind. specialize (Hm s).
  destruct (m s) as [s' [a|]]; [|done]. rewrite Hk. exact Hm.
Qed.

Lemma deletesNoPod_RetryNotify {L} (operation : L → M W (L * option error))
    (b : list Duration) (l : L) :
  (∀ l, deletesNoPod (operation l)) → deletesNoPod (RetryNotify p operation b l).
Proof.
  intros Hop. revert l. induction b as [|d b IH]; intros l; cbn [RetryNotify];
    (apply deletesNoPod_bind; [apply Hop|]); intros [l' [[]|]];
    try apply deletesNoPod_ret.
  - apply deletesNoPod_bind; [apply deletesNoPod_Sleep|]. intros _. apply IH.
  - apply deletesNoPod_bind; [apply deletesNoPod_Sleep|]. intros _. apply IH.
Qed.

Create HintDb quiet discriminated.
Hint Resolve deletesNoPod_ret deletesNoPod_query deletesNoPod_Sleep
  deletesNoPod_mutate deletesNoPod_RetryNotify : quiet.

Lemma deletesNoPod_waitForDeletedPV (name : string) (maxElapsedTime : Duration) :
  deletesNoPod (waitForDeletedPV p K name maxElapsedTime).
Proof.
  unfold waitForDeletedPV.
  apply deletesNoPod_bind; [auto with quiet|]. intros pvBackoff.
  apply deletesNoPod_bind.
  - apply deletesNoPod_RetryNotify. intros pv s.
    by rewrite checkForDeletedPV_spec.
  - intros [pv [err|]]; auto with quiet.
Qed.

Lemma deletesNoPod_waitForPVDisappearance (name : string) (maxElapsedTime : Duration) :
  deletesNoPod (waitForPVDisappearance p K name maxElapsedTime).
Proof.
  unfold waitForPVDisappearance.
  apply deletesNoPod_bind; [auto with quiet|]. intros pvBackoff.
  apply deletesNoPod_bind.
  - apply deletesNoPod_RetryNotify. intros u s.
    by rewrite checkForGonePV_spec.
  - intros [u [err|]]; auto with quiet.
Qed.

Lemma deletesNoPod_removePVFinalizers (pv : PersistentVolume) :
  deletesNoPod (removePVFinalizers p pv).
Proof.
  unfold removePVFinalizers. cbn zeta.
  apply deletesNoPod_bind; [auto with quiet|]. intros [err|patchedPV]; auto with quiet.
Qed.

Lemma deletesNoPod_deletePVForUpgrade (pv : PersistentVolume) :
  deletesNoPod (deletePVForUpgrade p K pv).
Proof.
  unfold deletePVForUpgrade. cbn zeta. apply deletesNoPod_bind.
  - destruct (DeletionTimestamp (pv_ObjectMeta pv)).
    + destruct (_ && _); [|auto with quiet].
      apply deletesNoPod_bind; [apply deletesNoPod_removePVFinalizers|].
      intros [err|patchedPV]; auto with quiet.
    + apply deletesNoPod_bind; [auto with quiet|]. intros [err|]; [auto with quiet|].
      apply deletesNoPod_bind; [apply deletesNoPod_waitForDeletedPV|].
      intros [[deletedPV|] [err|]]; auto with quiet.
      apply deletesNoPod_bind; [apply deletesNoPod_removePVFinalizers|].
      intros [err|patchedPV]; auto with quiet.
  - intros [err|]; [auto with quiet|]. apply deletesNoPod_waitForPVDisappearance.
Qed.

(** *** The claim that never becomes Lost *)

Lemma checkForPVCPhase_fails (pvc : PersistentVolumeClaim) (phase : string)
    (latestPVC : option PersistentVolumeClaim) (s : Exec W) :
  notInPhase p pvc phase (world s) →
  ∃ latestPVC' err,
    checkForPVCPhase p pvc phase latestPVC s = (s, Val (latestPVC', Some err)).
Proof.
  intros Hphase. unfold checkForPVCPhase. rewrite bind_query.
  destruct (getCachedPVCByName p (pvc_Name pvc) (pvc_Namespace pvc) (world s))
    as [err|latest] eqn:Hget; [by eexists _, _|].
  rewrite decide_True by by apply Hphase. by eexists _, _.
Qed.

Lemma waitForPVCPhase_timeout (pvc : PersistentVolumeClaim) (phase : string)
    (maxElapsedTime : Duration) (s : Exec W) :
  atEveryPoll p (notInPhase p pvc phase)
              (backoffIntervals p maxElapsedTime (world s)) (world s) →
  ∃ s',
    waitForPVCPhase p K pvc phase maxElapsedTime s =
      (s', Val (inl (Errorf ("PVC " +:+ pvc_Namespace pvc +:+ "/" +:+ pvc_Name pvc
                             +:+ " was not " +:+ phase +:+ " after "
                             +:+ formatSeconds K maxElapsedTime +:+ " seconds"))))
    ∧ calls s' = calls s.
Proof.
  intros Hpolls. unfold waitForPVCPhase. rewrite bind_query.
  destruct (RetryNotify_fails (checkForPVCPhase p pvc phase) _ _ None s
              (checkForPVCPhase_fails pvc phase) Hpolls)
    as (s' & latest & err & Hrun & Hcalls).
  exists s'. by rewrite (bind_val _ _ _ _ _ Hrun).
Qed.

(** C6: when all checks pass and the PV has been deleted, and the cache
    does not show the claim in phase Lost at any poll of the wait that
    follows, [UpgradeVolume] returns the error that says the claim,
    by namespace and name, was not Lost after the seconds of the PV
    deletion wait period, and the run deletes no pod. *)
Theorem UpgradeVolume_claim_never_lost (request : UpgradeVolumeRequest)
    (s s1 : Exec W) (volume : VolumeExternal) (pv : PersistentVolume)
    (claimRef : ObjectReference) (pvc : PersistentVolumeClaim) (podList : PodList) :
  passesEarlyChecks p K request s volume pv claimRef pvc →
  Pods_List p (pvc_Namespace pvc) (world s) = inr podList →
  nakedOccurrences pvc (range (Items podList)) = [] →
  finalizersAllowed K pv →
  deletePVForUpgrade p K pv s = (s1, Val None) →
  atEveryPoll p (notInPhase p pvc ClaimLost)
              (backoffIntervals p (PVDeleteWaitPeriod K) (world s1)) (world s1) →
  ∃ s2,
    UpgradeVolume p K request s =
      (s2, Val (inl (Errorf ("PV upgrade: PVC did not reach the Lost state" +:+ ": "
                             +:+ "PVC " +:+ pvc_Namespace pvc +:+ "/" +:+ pvc_Name pvc
                             +:+ " was not " +:+ ClaimLost +:+ " after "
                             +:+ formatSeconds K (PVDeleteWaitPeriod K)
                             +:+ " seconds"))))
    ∧ podDeletions s2 = podDeletions s.
Proof.
  intros (Hvol & Honline & Hpv & Hkind & Hbound & Hprov & Hclaim & Hpvc)
         Hpods Hnaked Hfin Hdel Hpolls.
  destruct (waitForPVCPhase_timeout pvc ClaimLost (PVDeleteWaitPeriod K) s1 Hpolls)
    as (s2 & Hwait & Hcalls).
  exists s2. split.
  - unfold UpgradeVolume. expose.
    rewrite Hvol. destruct (decide (State volume ≠ _)); [done|].
    rewrite Hpv. destruct (decide (_ ∧ _)); [done|].
    destruct (decide (pv_Phase pv ≠ _)); [done|].
    destruct (decide (index _ _ ≠ _)); [done|].
    rewrite Hclaim, Hpvc, getPodsForPVC_occurrences, Hpods, Hnaked.
    rewrite decide_False by (simpl; lia).
    assert (match Finalizers (pv_ObjectMeta pv) with
            | Some (finalizer :: others) =>
                bool_decide (finalizer ≠ FinalizerPVProtection K)
                || bool_decide (1 < length (finalizer :: others))
            | _ => false
            end = false) as ->.
    { destruct Hfin as [Hnone| ->].
      - by destruct (Finalizers (pv_ObjectMeta pv)) as [[|? ?]|].
      - rewrite bool_decide_eq_false_2 by (by intros []).
        by rewrite bool_decide_eq_false_2 by (simpl; lia). }
    rewrite Hdel, Hwait. reflexivity.
  - unfold podDeletions at 1. rewrite Hcalls.
    pose proof (deletesNoPod_deletePVForUpgrade pv s) as Hquiet.
    by rewrite Hdel in Hquiet.
Qed.

Lemma getPodsForPVC_lists (pvc : PersistentVolumeClaim) (s : Exec W) :
  getPodsForPVC p pvc s =
  (s, Val match Pods_List p (pvc_Namespace pvc) (world s) with
          | inl err => inl err
          | inr podList =>
              inr (ownedOccurrences pvc (range (Items podList)),
                   nakedOccurrences pvc (range (Items podList)))
          end).
Proof.
  unfold getPodsForPVC. rewrite bind_query.
  destruct (Pods_List p (pvc_Namespace pvc) (world s)) as [err|podList]; [done|].
  destruct (Items podList) as [items|]; [|done].
  cbn [range]. by rewrite outer_loop_spec.
Qed.

(** ** What the waiters return *)

(** With a condition that only reads and never panics, the poller returns
    in the state of its last poll, having made no API call; it returns
    nil exactly when that last poll succeeded. *)
Lemma RetryNotify_outcome {L} (operation : L → M W (L * option error))
    (b : list Duration) (l : L) (s : Exec W) :
  (∀ l s, ∃ l' r, operation l s = (s, Val (l', r))) →
  ∃ s1 l1 r l0 r0,
    RetryNotify p operation b l s = (s1, Val (l1, r))
    ∧ calls s1 = calls s
    ∧ operation l0 s1 = (s1, Val (l1, r0))
    ∧ (r = None ↔ r0 = None).
Proof.
  intros Hop. revert l s.
  induction b as [|d b IH]; intros l s; destruct (Hop l s) as (l' & r & Hrun);
    rewrite RetryNotify_unfold, Hrun.
  - destruct r as [[]|]; eexists s, l', _, l, _; (split; [reflexivity|]);
      (split; [reflexivity|]); (split; [exact Hrun|]); by split.
  - destruct r as [[]|];
      try (destruct (IH l' (Sleep p d s).1) as (s1 & l1 & r & l0 & r0 & -> & ? & ? & ?);
           by eexists s1, l1, r, l0, r0);
      eexists s, l', _, l, _; (split; [reflexivity|]);
      (split; [reflexivity|]); (split; [exact Hrun|]); by split.
Qed.

Lemma checkForPVCPhase_spec (pvc : PersistentVolumeClaim) (phase : string)
    (latestPVC : option PersistentVolumeClaim) (s : Exec W) :
  checkForPVCPhase p pvc phase latestPVC s =
  (s, Val match getCachedPVCByName p (pvc_Name pvc) (pvc_Namespace pvc) (world s) with
          | inl err => (None, Some err)
          | inr latestPVC =>
              if decide (pvc_Phase latestPVC ≠ phase)
              then (Some latestPVC,
                    Some (Errorf ("PVC " +:+ pvc_Namespace pvc +:+ "/" +:+ pvc_Name pvc
                                  +:+ " not yet " +:+ phase)))
              else (Some latestPVC, None)
          end).
Proof.
  unfold checkForPVCPhase. rewrite bind_query.
  destruct (getCachedPVCByName p (pvc_Name pvc) (pvc_Namespace pvc) (world s))
    as [err|latest]; [done|].
  by destruct (decide _).
Qed.

Lemma checkForDeletedPod_spec (name namespace : string) (pod0 : option Pod)
    (s : Exec W) :
  checkForDeletedPod p name namespace pod0 s =
  (s, Val match Pods_Get p namespace name (world s) with
          | (pod, Some (StatusError reason msg)) =>
              if decide (reason = StatusReasonNotFound) then (pod, None)
              else (pod, Some (StatusError reason msg))
          | (pod, Some err) => (pod, Some err)
          | (None, None) =>
              (None, Some (Errorf ("Kubernetes API returned nil for pod "
                                   +:+ namespace +:+ "/" +:+ name)))
          | (Some pod, None) =>
              if decide (pod_Phase pod = PodRunning)
              then (Some pod,
                    Some (Errorf ("pod " +:+ namespace +:+ "/" +:+ name
                                  +:+ " phase is " +:+ pod_Phase pod)))
              else (Some pod, None)
          end).
Proof.
  unfold checkForDeletedPod. rewrite bind_query.
  destruct (Pods_Get p namespace name (world s)) as [[pod|] [[]|]]; try done;
    by destruct (decide _).
Qed.

(** X1: [waitForPVDisappearance] never panics and makes no API call. It
    returns nil only in a state whose cache has no entry under the name,
    and otherwise returns its time-out error. *)
Theorem waitForPVDisappearance_outcome (name : string) (maxElapsedTime : Duration)
    (s : Exec W) :
  ∃ s1,
    calls s1 = calls s
    ∧ ((waitForPVDisappearance p K name maxElapsedTime s = (s1, Val None)
        ∧ absentFromCache p name (world s1))
       ∨ waitForPVDisappearance p K name maxElapsedTime s =
           (s1, Val (Some (Errorf ("PV " +:+ name +:+ " was not fully deleted after "
                                    +:+ formatSeconds K maxElapsedTime
                                    +:+ " seconds"))))).
Proof.
  unfold waitForPVDisappearance. rewrite bind_query.
  destruct (RetryNotify_outcome (checkForGonePV p name)
              (backoffIntervals p maxElapsedTime (world s)) () s)
    as (s1 & u1 & r & u0 & r0 & Hrun & Hcalls & Hlast & Hnil).
  { intros u s'. rewrite checkForGonePV_spec. by eexists _, _. }
  exists s1. split; [done|]. rewrite (bind_val _ _ _ _ _ Hrun).
  destruct r as [err|]; [by right|]. left. split; [done|].
  destruct Hnil as [Hnil _]. rewrite (Hnil eq_refl) in Hlast.
  by eapply checkForGonePV_success.
Qed.

(** X2: [waitForDeletedPV] never panics and makes no API call. It has
    three outcomes: no PV and no error, in a state whose cache has no
    entry under the name; a PV and no error, in a state whose cache holds
    that PV with a deletion timestamp; or no PV and its time-out error. *)
Theorem waitForDeletedPV_outcome (name : string) (maxElapsedTime : Duration)
    (s : Exec W) :
  ∃ s1,
    calls s1 = calls s
    ∧ ((waitForDeletedPV p K name maxElapsedTime s = (s1, Val (None, None))
        ∧ absentFromCache p name (world s1))
       ∨ (∃ pv, waitForDeletedPV p K name maxElapsedTime s = (s1, Val (Some pv, None))
                ∧ markedInCache p name pv (world s1))
       ∨ waitForDeletedPV p K name maxElapsedTime s =
           (s1, Val (None,
                     Some (Errorf ("PV " +:+ name +:+ " was not deleted after "
                                   +:+ formatSeconds K maxElapsedTime
                                   +:+ " seconds"))))).
Proof.
  unfold waitForDeletedPV. rewrite bind_query.
  destruct (RetryNotify_outcome (checkForDeletedPV p name)
              (backoffIntervals p maxElapsedTime (world s)) None s)
    as (s1 & pv1 & r & pv0 & r0 & Hrun & Hcalls & Hlast & Hnil).
  { intros pv s'. rewrite checkForDeletedPV_spec.
    match goal with |- ∃ l' r, (_, Val ?x) = _ => exists x.1, x.2; by destruct x end. }
  exists s1. split; [done|]. rewrite (bind_val _ _ _ _ _ Hrun).
  destruct r as [err|]; [by right; right|].
  destruct Hnil as [Hnil _]. rewrite (Hnil eq_refl) in Hlast.
  rewrite checkForDeletedPV_spec in Hlast. unfold absentFromCache, markedInCache.
  destruct (pvIndexer_GetByKey p name (world s1)) as [[item [|]] [err|]];
    try discriminate.
  - destruct (item ≫= assertPV) as [pv|] eqn:Hitem; [|discriminate].
    destruct (decide _) as [|Hmarked]; [discriminate|].
    injection Hlast as <-. right; left. exists pv. split; [done|]. by exists item.
  - injection Hlast as <-. left. split; [done|]. by exists item.
Qed.

(** X3: [waitForPVCPhase] never panics and makes no API call. It returns
    either the claim that the cache shows in the awaited phase in the
    state it ends in, or its time-out error. *)
Theorem waitForPVCPhase_outcome (pvc : PersistentVolumeClaim) (phase : string)
    (maxElapsedTime : Duration) (s : Exec W) :
  ∃ s1,
    calls s1 = calls s
    ∧ ((∃ latestPVC,
          waitForPVCPhase p K pvc phase maxElapsedTime s
            = (s1, Val (inr (Some latestPVC)))
          ∧ showsPhase p pvc phase latestPVC (world s1))
       ∨ waitForPVCPhase p K pvc phase maxElapsedTime s =
           (s1, Val (inl (Errorf ("PVC " +:+ pvc_Namespace pvc +:+ "/"
                                  +:+ pvc_Name pvc +:+ " was not " +:+ phase
                                  +:+ " after " +:+ formatSeconds K maxElapsedTime
                                  +:+ " seconds"))))).
Proof.
  unfold waitForPVCPhase. rewrite bind_query.
  destruct (RetryNotify_outcome (checkForPVCPhase p pvc phase)
              (backoffIntervals p maxElapsedTime (world s)) None s)
    as (s1 & l1 & r & l0 & r0 & Hrun & Hcalls & Hlast & Hnil).
  { intros l s'. rewrite checkForPVCPhase_spec.
    match goal with |- ∃ l' r, (_, Val ?x) = _ => exists x.1, x.2; by destruct x end. }
  exists s1. split; [done|]. rewrite (bind_val _ _ _ _ _ Hrun).
  destruct r as [err|]; [by right|]. left.
  destruct Hnil as [Hnil _]. rewrite (Hnil eq_refl) in Hlast.
  rewrite checkForPVCPhase_spec in Hlast. unfold showsPhase.
  destruct (getCachedPVCByName p (pvc_Name pvc) (pvc_Namespace pvc) (world s1))
    as [err|latest]; [discriminate|].
  destruct (decide _) as [|Hphase]; [discriminate|].
  injection Hlast as <-. exists latest. split; [done|]. split; [done|].
  by destruct (decide (pvc_Phase latest = phase)).
Qed.

(** X4: [waitForDeletedOrNonRunningPod] never panics and makes no API
    call. It returns without error only in a state in which the fetch of
    the pod is answered by a not-found status error or by a pod that is
    not Running, and it returns what that fetch returned; otherwise it
    returns its time-out error. *)
Theorem waitForDeletedOrNonRunningPod_outcome (name namespace : string)
    (maxElapsedTime : Duration) (s : Exec W) :
  ∃ s1,
    calls s1 = calls s
    ∧ ((∃ pod,
          waitForDeletedOrNonRunningPod p K name namespace maxElapsedTime s
            = (s1, Val (inr pod))
          ∧ (podNotFound p namespace name pod (world s1)
             ∨ podNotRunning p namespace name pod (world s1)))
       ∨ waitForDeletedOrNonRunningPod p K name namespace maxElapsedTime s =
           (s1, Val (inl (Errorf ("pod " +:+ namespace +:+ "/" +:+ name
                                  +:+ " was not deleted or non-Running after "
                                  +:+ formatSeconds K maxElapsedTime
                                  +:+ " seconds"))))).
Proof.
  unfold waitForDeletedOrNonRunningPod. rewrite bind_query.
  destruct (RetryNotify_outcome (checkForDeletedPod p name namespace)
              (backoffIntervals p maxElapsedTime (world s)) None s)
    as (s1 & l1 & r & l0 & r0 & Hrun & Hcalls & Hlast & Hnil).
  { intros l s'. rewrite checkForDeletedPod_spec.
    match goal with |- ∃ l' r, (_, Val ?x) = _ => exists x.1, x.2; by destruct x end. }
  exists s1. split; [done|]. rewrite (bind_val _ _ _ _ _ Hrun).
  destruct r as [err|]; [by right|]. left. exists l1. split; [done|].
  destruct Hnil as [Hnil _]. rewrite (Hnil eq_refl) in Hlast.
  rewrite checkForDeletedPod_spec in Hlast. unfold podNotFound, podNotRunning.
  destruct (Pods_Get p namespace name (world s1)) as [[pod|] [[? |reason msg| ?]|]];
    try discriminate.
  - destruct (decide _) as [->|]; [|discriminate].
    injection Hlast as <-. left. by exists msg.
  - destruct (decide _) as [|Hphase]; [discriminate|].
    injection Hlast as <-. right. by exists pod.
  - destruct (decide _) as [->|]; [|discriminate].
    injection Hlast as <-. left. by exists msg.
Qed.

Lemma checkForDeletedPod_running (name namespace : string) (pod0 : option Pod)
    (s : Exec W) :
  podRunning p namespace name (world s) →
  ∃ pod msg,
    checkForDeletedPod p name namespace pod0 s = (s, Val (pod, Some (Errorf msg))).
Proof.
  intros (pod & Hget & Hphase). rewrite checkForDeletedPod_spec, Hget.
  rewrite decide_True by done. by eexists _, _.
Qed.

(** X5: when the fetch of the pod is answered by a Running pod at every
    poll, [waitForDeletedOrNonRunningPod] sleeps through every interval of
    its back-off and then returns its time-out error. *)
Theorem waitForDeletedOrNonRunningPod_running (name namespace : string)
    (maxElapsedTime : Duration) (s : Exec W) :
  atEveryPoll p (podRunning p namespace name)
              (backoffIntervals p maxElapsedTime (world s)) (world s) →
  waitForDeletedOrNonRunningPod p K name namespace maxElapsedTime s =
    (afterSleeps p (backoffIntervals p maxElapsedTime (world s)) s,
     Val (inl (Errorf ("pod " +:+ namespace +:+ "/" +:+ name
                       +:+ " was not deleted or non-Running after "
                       +:+ formatSeconds K maxElapsedTime +:+ " seconds")))).
Proof.
  intros Hpolls. unfold waitForDeletedOrNonRunningPod. rewrite bind_query.
  destruct (RetryNotify_exhausted (checkForDeletedPod p name namespace) _ _ None s
              (checkForDeletedPod_running name namespace) Hpolls)
    as (pod & msg & Hrun).
  by rewrite (bind_val _ _ _ _ _ Hrun).
Qed.

(** X6: when the first fetch of the pod is answered by a not-found status
    error, or by a pod that is not Running, [waitForDeletedOrNonRunningPod]
    returns what the fetch returned, without error, without sleeping and
    without any change of state. *)
Theorem waitForDeletedOrNonRunningPod_terminal (name namespace : string)
    (maxElapsedTime : Duration) (pod : option Pod) (s : Exec W) :
  podNotFound p namespace name pod (world s)
  ∨ podNotRunning p namespace name pod (world s) →
  waitForDeletedOrNonRunningPod p K name namespace maxElapsedTime s
    = (s, Val (inr pod)).
Proof.
  intros Hterminal. unfold waitForDeletedOrNonRunningPod. rewrite bind_query.
  rewrite (bind_val _ _ _ s (pod, None)); [done|].
  apply RetryNotify_immediate. rewrite checkForDeletedPod_spec.
  destruct Hterminal as [[msg Hget]|(pod' & -> & Hget & Hphase)]; rewrite Hget.
  - by destruct pod; rewrite decide_True.
  - by rewrite decide_False.
Qed.

(** ** More on createCSIPVFromPV *)

(** X7: for a PV without an NFS source and with an iSCSI source,
    [createCSIPVFromPV] submits for creation a PV whose CSI source names
    the CSI provisioner as driver and the name of the original PV as
    volume handle, and takes its read-only flag and its filesystem type
    from the iSCSI source. *)
Theorem createCSIPVFromPV_iscsi (pv : PersistentVolume) (volume : VolumeExternal)
    (iscsi : ISCSIPersistentVolumeSource) (s : Exec W) :
  spec_NFS (pv_Spec pv) = None →
  spec_ISCSI (pv_Spec pv) = Some iscsi →
  ∃ csi,
    calls (createCSIPVFromPV p K pv volume s).1
      = calls s ++ [CreatePVCall (csiPVFromPV K pv volume)]
    ∧ spec_CSI (pv_Spec (csiPVFromPV K pv volume)) = Some csi
    ∧ csi_Driver csi = Provisioner K
    ∧ csi_VolumeHandle csi = pv_Name pv
    ∧ csi_ReadOnly csi = iscsi_ReadOnly iscsi
    ∧ csi_FSType csi = iscsi_FSType iscsi.
Proof.
  intros Hnfs Hiscsi. exists (csiSourceFromPV K pv volume).
  rewrite createCSIPVFromPV_call.
  split; [reflexivity|]. split; [reflexivity|].
  unfold csiSourceFromPV. rewrite Hnfs, Hiscsi. by repeat split.
Qed.

(** X8: the PV that [createCSIPVFromPV] submits for creation has no NFS
    and no iSCSI source and has a CSI source; its resource version and UID
    are empty; its provisioned-by annotation names the CSI provisioner and
    every other annotation is that of the original PV; and its name,
    namespace, labels, owner references, finalizers, deletion timestamp,
    capacity, claim reference, storage class and phase are those of the
    original PV. *)
Theorem createCSIPVFromPV_frame (pv : PersistentVolume) (volume : VolumeExternal)
    (s : Exec W) :
  let csiPV := csiPVFromPV K pv volume in
  calls (createCSIPVFromPV p K pv volume s).1 = calls s ++ [CreatePVCall csiPV]
  ∧ spec_NFS (pv_Spec csiPV) = None
  ∧ spec_ISCSI (pv_Spec csiPV) = None
  ∧ is_Some (spec_CSI (pv_Spec csiPV))
  ∧ ResourceVersion (pv_ObjectMeta csiPV) = ""
  ∧ UID (pv_ObjectMeta csiPV) = ""
  ∧ lookup_key (Annotations (pv_ObjectMeta csiPV)) (AnnDynamicallyProvisioned K)
    = Some (Provisioner K)
  ∧ (∀ key, key ≠ AnnDynamicallyProvisioned K →
       lookup_key (Annotations (pv_ObjectMeta csiPV)) key
       = lookup_key (Annotations (pv_ObjectMeta pv)) key)
  ∧ pvSetSpec
      {| spec_Capacity := spec_Capacity (pv_Spec csiPV);
         spec_NFS := spec_NFS (pv_Spec pv);
         spec_ISCSI := spec_ISCSI (pv_Spec pv);
         spec_CSI := spec_CSI (pv_Spec pv);
         spec_ClaimRef := spec_ClaimRef (pv_Spec csiPV);
         spec_StorageClassName := spec_StorageClassName (pv_Spec csiPV) |}
      (pvSetMeta
         (setAnnotations (Annotations (pv_ObjectMeta pv))
            (setUID (UID (pv_ObjectMeta pv))
               (setResourceVersion (ResourceVersion (pv_ObjectMeta pv))
                  (pv_ObjectMeta csiPV))))
         csiPV)
    = pv.
Proof.
  intros csiPV. rewrite createCSIPVFromPV_call.
  split; [done|]. split; [done|]. split; [done|]. split; [by eexists|].
  split; [done|]. split; [done|].
  split; [|split].
  - subst csiPV. cbn. by rewrite lookup_insert_eq.
  - intros key Hne. subst csiPV. cbn. rewrite lookup_insert_ne by done.
    by destruct (Annotations (pv_ObjectMeta pv)).
  - subst csiPV. by destruct pv as [[] [] ?].
Qed.

(** ** More on getPodsForPVC *)

Lemma elem_of_occurrences (pvc : PersistentVolumeClaim) (pod : Pod) (name : string) :
  name ∈ occurrences pvc pod ↔
  name = pod_Name pod
  ∧ ∃ volume, volume ∈ range (pod_Volumes pod) ∧ referencesClaim pvc volume = true.
Proof.
  unfold occurrences. rewrite elem_of_replicate. split.
  - intros [-> Hlen]. split; [done|].
    destruct (List.filter (referencesClaim pvc) (range (pod_Volumes pod)))
      as [|volume rest] eqn:Hfilter; [done|].
    exists volume. rewrite list_elem_of_In.
    apply (filter_In (referencesClaim pvc)). rewrite Hfilter. by left.
  - intros [-> (volume & Hin & Href)]. split; [done|].
    assert (In volume (List.filter (referencesClaim pvc) (range (pod_Volumes pod))))
      as Hfiltered by (apply filter_In; split; [by apply list_elem_of_In|done]).
    by destruct (List.filter _ _).
Qed.

(** X9: when the listing of the claim's namespace succeeds,
    [getPodsForPVC] returns two lists such that a name is in the naked
    list exactly when it is the name of a listed pod without owner
    references that has a volume entry referencing the claim by name, and
    in the owned list exactly when it is the name of a listed pod with
    owner references that has such a volume entry. *)
Theorem getPodsForPVC_membership (pvc : PersistentVolumeClaim) (podList : PodList)
    (s : Exec W) :
  Pods_List p (pvc_Namespace pvc) (world s) = inr podList →
  ∃ ownedPodsForPVC nakedPodsForPVC,
    getPodsForPVC p pvc s = (s, Val (inr (ownedPodsForPVC, nakedPodsForPVC)))
    ∧ (∀ name,
         name ∈ nakedPodsForPVC ↔
         ∃ pod, pod ∈ range (Items podList) ∧ pod_Name pod = name
                ∧ len (OwnerReferences (pod_ObjectMeta pod)) = 0
                ∧ ∃ volume, volume ∈ range (pod_Volumes pod)
                            ∧ referencesClaim pvc volume = true)
    ∧ (∀ name,
         name ∈ ownedPodsForPVC ↔
         ∃ pod, pod ∈ range (Items podList) ∧ pod_Name pod = name
                ∧ 0 < len (OwnerReferences (pod_ObjectMeta pod))
                ∧ ∃ volume, volume ∈ range (pod_Volumes pod)
                            ∧ referencesClaim pvc volume = true).
Proof.
  intros Hpods. eexists _, _. rewrite getPodsForPVC_lists, Hpods.
  split; [reflexivity|].
  split; intros name; unfold nakedOccurrences, ownedOccurrences;
    rewrite list_elem_of_bind; split.
  - intros (pod & Hname & Hin). unfold isNaked in Hname.
    destruct (bool_decide_reflect (len (OwnerReferences (pod_ObjectMeta pod)) = 0));
      [|inversion Hname].
    apply elem_of_occurrences in Hname as [-> Href]. by exists pod.
  - intros (pod & Hin & <- & Hnaked & Href). exists pod. split; [|done].
    unfold isNaked. rewrite bool_decide_eq_true_2 by done.
    by apply elem_of_occurrences.
  - intros (pod & Hname & Hin). unfold isNaked in Hname.
    destruct (bool_decide_reflect (len (OwnerReferences (pod_ObjectMeta pod)) = 0));
      [inversion Hname|].
    apply elem_of_occurrences in Hname as [-> Href]. exists pod.
    repeat split; try done. lia.
  - intros (pod & Hin & <- & Howned & Href). exists pod. split; [|done].
    unfold isNaked. rewrite bool_decide_eq_false_2 by lia.
    by apply elem_of_occurrences.
Qed.

(** ** More on removePVCBindCompletedAnnotation *)

Lemma removePVCBindCompletedAnnotation_frame_call (pvc : PersistentVolumeClaim)
    (s : Exec W) :
  removePVCBindCompletedAnnotation p K pvc s =
  ({| world := (patchPVC p pvc (pvcCloneWithoutBindCompleted K pvc) (world s)).1;
      calls := calls s ++ [PatchPVCCall pvc (pvcCloneWithoutBindCompleted K pvc)];
      waits := waits s |},
   Val (patchPVC p pvc (pvcCloneWithoutBindCompleted K pvc) (world s)).2).
Proof.
  unfold removePVCBindCompletedAnnotation. cbn zeta. rewrite bind_mutate.
  by destruct (patchPVC p pvc _ (world s)).2.
Qed.

Lemma copyAnnotations_idempotent (annotations : gomap) :
  copyAnnotations K (Some (copyAnnotations K annotations))
  = copyAnnotations K annotations.
Proof.
  apply map_eq. intros key. rewrite !copyAnnotations_lookup.
  destruct (decide _); [done|]. cbn [lookup_key].
  rewrite copyAnnotations_lookup. by rewrite decide_False.
Qed.

(** X10: the clone that [removePVCBindCompletedAnnotation] builds for a
    claim is a fixed point of the construction: building the clone of the
    clone gives the clone again, so that stripping an already stripped
    claim submits a patch that changes nothing. *)
Theorem pvcCloneWithoutBindCompleted_idempotent (pvc : PersistentVolumeClaim)
    (s : Exec W) :
  let pvcClone := pvcCloneWithoutBindCompleted K pvc in
  pvcCloneWithoutBindCompleted K pvcClone = pvcClone
  ∧ calls (removePVCBindCompletedAnnotation p K pvcClone s).1
    = calls s ++ [PatchPVCCall pvcClone pvcClone].
Proof.
  intros pvcClone.
  assert (pvcCloneWithoutBindCompleted K pvcClone = pvcClone) as Hfix.
  { subst pvcClone. unfold pvcCloneWithoutBindCompleted, pvcSetMeta, setAnnotations.
    cbn -[copyAnnotations]. by rewrite copyAnnotations_idempotent. }
  split; [done|].
  rewrite removePVCBindCompletedAnnotation_frame_call. cbn [fst calls].
  by rewrite Hfix.
Qed.

(** ** More on deletePVForUpgrade *)




(** X11: whenever [deletePVForUpgrade] returns without error, whatever the
    PV it was given, the cache has no entry under the name of the PV in
    the state it returns in. *)
Theorem deletePVForUpgrade_success_absent (pv : PersistentVolume) (s s1 : Exec W) :
  deletePVForUpgrade p K pv s = (s1, Val None) →
  absentFromCache p (pv_Name pv) (world s1).
Proof.
  unfold deletePVForUpgrade. cbn zeta. intros H.
  apply bind_inv in H as (s' & [err|] & _ & Hwait); [discriminate|].
  by apply waitForPVDisappearance_success in Hwait as [Habsent _].
Qed.


(** ** More on UpgradeVolume *)

(** X13: unless every check of [UpgradeVolume] passes (the early checks,
    a successful listing of pods with no naked pod using the claim, and a
    finalizer list that is empty or holds pv-protection alone),
    [UpgradeVolume] returns in the state it started in, with no API call
    and no sleep, and does not return a volume. *)
Theorem UpgradeVolume_gate (request : UpgradeVolumeRequest) (s : Exec W) :
  (∃ r, UpgradeVolume p K request s = (s, r) ∧ ∀ volume, r ≠ Val (inr volume))
  ∨ (∃ volume pv claimRef pvc podList,
       passesEarlyChecks p K request s volume pv claimRef pvc
       ∧ Pods_List p (pvc_Namespace pvc) (world s) = inr podList
       ∧ nakedOccurrences pvc (range (Items podList)) = []
       ∧ finalizersAllowed K pv).
Proof.
  unfold UpgradeVolume. expose.
  destruct (orchestrator_GetVolume p (request_Volume request) (world s))
    as [err|volume] eqn:Hvol; [left; by eexists|].
  destruct (decide (State volume ≠ _)) as [|Honline]; [left; by eexists|].
  destruct (getCachedPVByName p (request_Volume request) (world s))
    as [err|pv] eqn:Hpv; [left; by eexists|].
  destruct (decide (_ ∧ _)) as [|Hkind]; [left; by eexists|].
  destruct (decide (pv_Phase pv ≠ _)) as [|Hbound]; [left; by eexists|].
  destruct (decide (index _ _ ≠ _)) as [|Hprov]; [left; by eexists|].
  destruct (spec_ClaimRef (pv_Spec pv)) as [claimRef|] eqn:Hclaim;
    [|left; by eexists].
  destruct (getCachedPVCByName p (ref_Name claimRef) (ref_Namespace claimRef) (world s))
    as [err|pvc] eqn:Hpvc; [left; by eexists|].
  rewrite getPodsForPVC_lists.
  destruct (Pods_List p (pvc_Namespace pvc) (world s)) as [err|podList] eqn:Hpods;
    [left; by eexists|].
  destruct (decide (0 < length _)) as [|Hnaked]; [left; by eexists|].
  destruct (match Finalizers (pv_ObjectMeta pv) with
            | Some (finalizer :: others) => _
            | _ => false
            end) eqn:Hfin; [left; by eexists|].
  right. exists volume, pv, claimRef, pvc, podList.
  split; [|split; [done|split]].
  - repeat split; try done.
    + by destruct (decide (State volume = VolumeStateOnline K)).
    + by destruct (decide (pv_Phase pv = VolumeBound)).
    + by destruct (decide (index (Annotations (pv_ObjectMeta pv))
                                 (AnnDynamicallyProvisioned K) = LegacyProvisioner K)).
  - destruct (nakedOccurrences pvc (range (Items podList))); [done|].
    simpl in Hnaked. lia.
  - unfold finalizersAllowed.
    destruct (Finalizers (pv_ObjectMeta pv)) as [[|finalizer others]|];
      [by left| |by left].
    right. apply orb_false_elim in Hfin as [Hfirst Hrest].
    apply bool_decide_eq_false in Hfirst, Hrest.
    destruct others; [|simpl in Hrest; lia].
    by destruct (decide (finalizer = FinalizerPVProtection K)) as [->|].
Qed.

(** X14: when all checks before it pass and no naked pod uses the claim,
    a PV whose finalizer list is neither empty nor pv-protection alone is
    rejected with the error about finalizers, in the state the workflow
    started in, with no API call and no sleep. *)
Theorem UpgradeVolume_rejects_other_finalizers (request : UpgradeVolumeRequest)
    (s : Exec W) (volume : VolumeExternal) (pv : PersistentVolume)
    (claimRef : ObjectReference) (pvc : PersistentVolumeClaim) (podList : PodList) :
  passesEarlyChecks p K request s volume pv claimRef pvc →
  Pods_List p (pvc_Namespace pvc) (world s) = inr podList →
  nakedOccurrences pvc (range (Items podList)) = [] →
  ¬ finalizersAllowed K pv →
  UpgradeVolume p K request s =
    (s, Val (inl (Errorf
       "PV upgrade: PV has a finalizer other than kubernetes.io/pv-protection"))).
Proof.
  intros (Hvol & Honline & Hpv & Hkind & Hbound & Hprov & Hclaim & Hpvc)
         Hpods Hnaked Hfin.
  unfold UpgradeVolume. expose.
  rewrite Hvol. destruct (decide (State volume ≠ _)); [done|].
  rewrite Hpv. destruct (decide (_ ∧ _)); [done|].
  destruct (decide (pv_Phase pv ≠ _)); [done|].
  destruct (decide (index _ _ ≠ _)); [done|].
  rewrite Hclaim, Hpvc, getPodsForPVC_lists, Hpods, Hnaked.
  rewrite decide_False by (simpl; lia).
  unfold finalizersAllowed in Hfin.
  destruct (Finalizers (pv_ObjectMeta pv)) as [[|finalizer others]|];
    [by destruct Hfin; left| |by destruct Hfin; left].
  destruct (decide (finalizer = FinalizerPVProtection K)) as [->|Hne].
  - destruct others; [by destruct Hfin; right|].
    rewrite (bool_decide_eq_true_2 (1 < _)) by (simpl; lia).
    by rewrite orb_true_r.
  - by rewrite bool_decide_eq_true_2.
Qed.

(** X15: a cached PV that passes the checks on its source, phase and
    provisioner but has no claim reference makes [UpgradeVolume] panic
    (it reads the namespace through the nil reference), in the state the
    workflow started in. *)
Theorem UpgradeVolume_nil_claimRef_panics (request : UpgradeVolumeRequest)
    (s : Exec W) (volume : VolumeExternal) (pv : PersistentVolume) :
  orchestrator_GetVolume p (request_Volume request) (world s) = inr volume →
  State volume = VolumeStateOnline K →
  getCachedPVByName p (request_Volume request) (world s) = inr pv →
  ¬ (spec_NFS (pv_Spec pv) = None ∧ spec_ISCSI (pv_Spec pv) = None) →
  pv_Phase pv = VolumeBound →
  index (Annotations (pv_ObjectMeta pv)) (AnnDynamicallyProvisioned K)
    = LegacyProvisioner K →
  spec_ClaimRef (pv_Spec pv) = None →
  UpgradeVolume p K request s = (s, Panic).
Proof.
  intros Hvol Honline Hpv Hkind Hbound Hprov Hclaim.
  unfold UpgradeVolume. expose.
  rewrite Hvol. destruct (decide (State volume ≠ _)); [done|].
  rewrite Hpv. destruct (decide (_ ∧ _)); [done|].
  destruct (decide (pv_Phase pv ≠ _)); [done|].
  destruct (decide (index _ _ ≠ _)); [done|].
  by rewrite Hclaim.
Qed.






(** X17: the loop of [UpgradeVolume] that deletes the owned pods never
    panics and never sleeps; it issues deletions for an initial part of
    the list, in order, and nothing else. When it returns without error
    it has issued a deletion for every entry; when it returns an error,
    the last deletion it issued is the one that failed, the error wraps
    that failure, and no later entry was tried. *)
Theorem deleteOwnedPods_prefix (namespace : string) (pods : list string)
    (s : Exec W) :
  ∃ s1 r n,
    deleteOwnedPods p namespace pods s = (s1, Val r)
    ∧ n ≤ length pods
    ∧ calls s1 = calls s ++ (DeletePodCall namespace <$> take n pods)
    ∧ waits s1 = waits s
    ∧ match r with
      | None => n = length pods
      | Some err =>
          ∃ podName before cause,
            pods !! (n - 1) = Some podName ∧ 0 < n
            ∧ Pods_Delete p namespace podName (world before) = (world s1, Some cause)
            ∧ err = Errorf ("PV upgrade: could not delete a pod using the PV"
                            +:+ ": " +:+ Error cause)
      end.
Proof.
  revert s. induction pods as [|podName rest IH]; intros s; cbn [deleteOwnedPods].
  - exists s, None, 0. repeat split; try done. by rewrite app_nil_r.
  - rewrite bind_mutate.
    destruct (Pods_Delete p namespace podName (world s)) as [w [cause|]] eqn:Hdel;
      cbn [fst snd].
    + eexists _, _, 1. split; [reflexivity|]. split; [simpl; lia|].
      split; [done|]. split; [done|].
      exists podName, s, cause. repeat split; try done. lia.
    + edestruct IH as (s1 & r & n & -> & Hn & Hcalls & Hwaits & Hr).
      exists s1, r, (S n). split; [reflexivity|]. split; [simpl; lia|].
      split; [rewrite Hcalls; cbn; by rewrite <- app_assoc|].
      split; [done|].
      destruct r as [err|]; [|simpl; lia].
      destruct Hr as (podName' & before & cause & Hlookup & Hpos & Hfail & ->).
      exists podName', before, cause. repeat split; try done; [|lia].
      destruct n; [lia|]. simpl in *. by rewrite Nat.sub_0_r in Hlookup.
Qed.

(** ** Waiting and nothing else *)

Lemma RetryNotify_sleeps {L} (operation : L → M W (L * option error))
    (b : list Duration) (l : L) (s : Exec W) :
  (∀ l s, ∃ l' r, operation l s = (s, Val (l', r))) →
  ∃ n, n ≤ length b ∧ (RetryNotify p operation b l s).1 = afterSleeps p (take n b) s.
Proof.
  intros Hop. revert l s.
  induction b as [|d b IH]; intros l s; destruct (Hop l s) as (l' & r & Hrun);
    rewrite RetryNotify_unfold, Hrun.
  - exists 0. by destruct r as [[]|].
  - destruct r as [[]|]; try (exists 0; split; [simpl; lia|done]);
      destruct (IH l' (Sleep p d s).1) as (n & Hn & ->);
      exists (S n); (split; [simpl; lia|done]).
Qed.

(** X18: each of the four waiters changes the state only by sleeping:
    the state it ends in is the one reached from the state it started in
    by sleeping through an initial part of the intervals of its back-off,
    so that it polls at most once more than the back-off has intervals. *)
Theorem waiters_only_sleep (name namespace : string) (pvc : PersistentVolumeClaim)
    (phase : string) (maxElapsedTime : Duration) (s : Exec W) :
  let b := backoffIntervals p maxElapsedTime (world s) in
  (∃ n, n ≤ length b
        ∧ (waitForPVDisappearance p K name maxElapsedTime s).1
          = afterSleeps p (take n b) s)
  ∧ (∃ n, n ≤ length b
          ∧ (waitForDeletedPV p K name maxElapsedTime s).1
            = afterSleeps p (take n b) s)
  ∧ (∃ n, n ≤ length b
          ∧ (waitForPVCPhase p K pvc phase maxElapsedTime s).1
            = afterSleeps p (take n b) s)
  ∧ (∃ n, n ≤ length b
          ∧ (waitForDeletedOrNonRunningPod p K name namespace maxElapsedTime s).1
            = afterSleeps p (take n b) s).
Proof.
  intros b. repeat split.
  - destruct (RetryNotify_sleeps (checkForGonePV p name) b () s) as (n & Hn & Hs).
    { intros u s'. rewrite checkForGonePV_spec. by eexists _, _. }
    exists n. split; [done|]. rewrite <- Hs.
    unfold waitForPVDisappearance. rewrite bind_query. fold b. unfold mbind, M_bind.
    by destruct (RetryNotify _ _ _ _ _) as [s1 [[u [err|]]|]].
  - destruct (RetryNotify_sleeps (checkForDeletedPV p name) b None s) as (n & Hn & Hs).
    { intros l s'. rewrite checkForDeletedPV_spec.
      match goal with |- ∃ l' r, (_, Val ?x) = _ => exists x.1, x.2; by destruct x end. }
    exists n. split; [done|]. rewrite <- Hs.
    unfold waitForDeletedPV. rewrite bind_query. fold b. unfold mbind, M_bind.
    by destruct (RetryNotify _ _ _ _ _) as [s1 [[u [err|]]|]].
  - destruct (RetryNotify_sleeps (checkForPVCPhase p pvc phase) b None s)
      as (n & Hn & Hs).
    { intros l s'. rewrite checkForPVCPhase_spec.
      match goal with |- ∃ l' r, (_, Val ?x) = _ => exists x.1, x.2; by destruct x end. }
    exists n. split; [done|]. rewrite <- Hs.
    unfold waitForPVCPhase. rewrite bind_query. fold b. unfold mbind, M_bind.
    by destruct (RetryNotify _ _ _ _ _) as [s1 [[u [err|]]|]].
  - destruct (RetryNotify_sleeps (checkForDeletedPod p name namespace) b None s)
      as (n & Hn & Hs).
    { intros l s'. rewrite checkForDeletedPod_spec.
      match goal with |- ∃ l' r, (_, Val ?x) = _ => exists x.1, x.2; by destruct x end. }
    exists n. split; [done|]. rewrite <- Hs.
    unfold waitForDeletedOrNonRunningPod. rewrite bind_query. fold b.
    unfold mbind, M_bind.
    by destruct (RetryNotify _ _ _ _ _) as [s1 [[u [err|]]|]].
Qed.

(** X19: when the first lookup finds no entry under the name,
    [waitForDeletedPV] returns no PV and no error at once; when it finds
    a PV with a deletion timestamp, it returns that PV and no error at
    once. In both cases it does not sleep and the state is unchanged. *)
Theorem waitForDeletedPV_immediate (name : string) (maxElapsedTime : Duration)
    (s : Exec W) :
  (absentFromCache p name (world s) →
   waitForDeletedPV p K name maxElapsedTime s = (s, Val (None, None)))
  ∧ (∀ pv, markedInCache p name pv (world s) →
           waitForDeletedPV p K name maxElapsedTime s = (s, Val (Some pv, None))).
Proof.
  split.
  - intros [item Hget]. unfold waitForDeletedPV. rewrite bind_query.
    rewrite (bind_val _ _ _ s (None, None)); [done|].
    apply RetryNotify_immediate. by rewrite checkForDeletedPV_spec, Hget.
  - intros pv (item & Hget & Hitem & Hmarked).
    unfold waitForDeletedPV. rewrite bind_query.
    rewrite (bind_val _ _ _ s (Some pv, None)); [done|].
    apply RetryNotify_immediate. rewrite checkForDeletedPV_spec, Hget, Hitem.
    by rewrite decide_False.
Qed.

(** X20: when the cache shows the claim in the awaited phase at the first
    poll, [waitForPVCPhase] returns the cached claim at once, without
    sleeping and with the state unchanged; the claim it was given is used
    for its name and namespace only. *)
Theorem waitForPVCPhase_immediate (pvc latestPVC : PersistentVolumeClaim)
    (phase : string) (maxElapsedTime : Duration) (s : Exec W) :
  showsPhase p pvc phase latestPVC (world s) →
  waitForPVCPhase p K pvc phase maxElapsedTime s = (s, Val (inr (Some latestPVC))).
Proof.
  intros [Hget Hphase]. unfold waitForPVCPhase. rewrite bind_query.
  rewrite (bind_val _ _ _ s (Some latestPVC, None)); [done|].
  apply RetryNotify_immediate. rewrite checkForPVCPhase_spec, Hget.
  by rewrite decide_False by (by intros []).
Qed.

(** ** The order of the API calls *)











(** ** The errors of UpgradeVolume *)

Lemma deleteOwnedPods_error (namespace : string) (pods : list string)
    (s s1 : Exec W) (err : error) :
  deleteOwnedPods p namespace pods s = (s1, Val (Some err)) →
  ∃ cause, err = wrap "PV upgrade: could not delete a pod using the PV" cause.
Proof.
  revert s. induction pods as [|podName rest IH]; intros s; cbn [deleteOwnedPods].
  - discriminate.
  - rewrite bind_mutate.
    destruct (Pods_Delete p namespace podName (world s)) as [w [cause|]];
      cbn [fst snd].
    + intros [= <- <-]. by exists cause.
    + apply IH.
Qed.

Lemma awaitOwnedPods_error (namespace : string) (pods : list string)
    (s s1 : Exec W) (err : error) :
  awaitOwnedPods p K namespace pods s = (s1, Val (Some err)) →
  ∃ cause, err = wrap "PV upgrade: unexpected pod status" cause.
Proof.
  revert s. induction pods as [|podName rest IH]; intros s; cbn [awaitOwnedPods].
  - discriminate.
  - intros H. apply bind_inv in H as (s' & [cause|pod] & _ & H).
    + injection H as <- <-. by exists cause.
    + by apply IH in H.
Qed.

(** X22: every error that [UpgradeVolume] returns is a plain error made
    from a message, never an error value of one of its collaborators, and
    its message starts with "PV upgrade: ", except for the message of the
    check on the source of the PV, which is
    "PV to be upgraded must be of type NFS or iSCSI". *)
Theorem UpgradeVolume_error_messages (request : UpgradeVolumeRequest)
    (s s' : Exec W) (err : error) :
  UpgradeVolume p K request s = (s', Val (inl err)) →
  ∃ msg,
    err = Errorf msg
    ∧ (Stdlib.Strings.String.prefix "PV upgrade: " msg = true
       ∨ msg = "PV to be upgraded must be of type NFS or iSCSI").
Proof.
  intros H. unfold UpgradeVolume in H. expose_in H.
  repeat (case_match; try discriminate); simplify_eq;
    repeat match goal with
           | Hd : deleteOwnedPods _ _ _ _ = (_, Val (Some _)) |- _ =>
               apply deleteOwnedPods_error in Hd as [cause ->]
           | Hd : awaitOwnedPods _ _ _ _ _ = (_, Val (Some _)) |- _ =>
               apply awaitOwnedPods_error in Hd as [cause ->]
           end;
    (eexists; split; [reflexivity|]);
    first [left; reflexivity | right; reflexivity].
Qed.

End Properties.

(** * The properties on the small cluster *)

(** C1, counterexample: a cached PV with both an NFS and an iSCSI source
    is not rejected; the workflow runs to the end, starting with the
    deletion of the PV. *)
Lemma UpgradeVolume_accepts_pv_with_both_sources :
  getCachedPVByName Sim.plugin (request_Volume Sim.request) Sim.withBoth
    = inr Sim.pvBoth
  ∧ spec_NFS (pv_Spec Sim.pvBoth) = Some Sim.nfs1
  ∧ spec_ISCSI (pv_Spec Sim.pvBoth) = Some Sim.iscsi1
  ∧ (¬ ∃ err, UpgradeVolume Sim.plugin Sim.constants Sim.request (start Sim.withBoth)
              = (start Sim.withBoth, Val (inl err)))
  ∧ (UpgradeVolume Sim.plugin Sim.constants Sim.request (start Sim.withBoth)).2
    = Val (inr Sim.vol1)
  ∧ head (calls (UpgradeVolume Sim.plugin Sim.constants Sim.request
                   (start Sim.withBoth)).1)
    = Some (DeletePVCall "vol1").
Proof.
  assert ((UpgradeVolume Sim.plugin Sim.constants Sim.request (start Sim.withBoth)).2
          = Val (inr Sim.vol1)) as Hrun by (vm_compute; reflexivity).
  repeat split; try (vm_compute; reflexivity).
  intros [err Herr]. rewrite Herr in Hrun. discriminate Hrun.
Qed.

Lemma UpgradeVolume_rejects_untyped_pv_witness :
  ∃ err,
    UpgradeVolume Sim.plugin Sim.constants Sim.request
      (start (Sim.cluster (ObjPV (Sim.legacyPV None None None)) [Sim.pod1] true))
    = (start (Sim.cluster (ObjPV (Sim.legacyPV None None None)) [Sim.pod1] true),
       Val (inl err)).
Proof.
  apply (UpgradeVolume_rejects_untyped_pv Sim.plugin Sim.constants Sim.request
           (start (Sim.cluster (ObjPV (Sim.legacyPV None None None)) [Sim.pod1] true))
           (Sim.legacyPV None None None)); reflexivity.
Defined.

(** C2: with a PV that stays in the cache without a deletion timestamp,
    the poller ends with the PV it saw last and the error of the last
    poll, and [waitForDeletedPV] returns nil with its time-out error. *)
Theorem waitForDeletedPV_timeout_returns_nil :
  (RetryNotify Sim.plugin (checkForDeletedPV Sim.plugin "vol1")
     (backoffIntervals Sim.plugin Sim.twoSeconds Sim.untouched) None
     (start Sim.untouched)).2
    = Val (Some Sim.pv1, Some (Errorf "PV vol1 deletion timestamp not set"))
  ∧ (waitForDeletedPV Sim.plugin Sim.constants "vol1" Sim.twoSeconds
       (start Sim.untouched)).2
    = Val (None, Some (Errorf "PV vol1 was not deleted after 2.00 seconds")).
Proof. split; vm_compute; reflexivity. Qed.

(** C3, counterexample: the PV cache holds a claim under the name of the
    PV. Neither waiter returns the error of the type mismatch in the state
    it started in; each sleeps twice and returns its time-out error. *)
Lemma type_mismatch_does_not_abort :
  typeMismatch Sim.plugin "vol1" Sim.corrupted
  ∧ waitForPVDisappearance Sim.plugin Sim.constants "vol1" Sim.twoSeconds
      (start Sim.corrupted)
    ≠ (start Sim.corrupted, Val (Some (Errorf "non-PV object vol1 found in cache")))
  ∧ waitForDeletedPV Sim.plugin Sim.constants "vol1" Sim.twoSeconds
      (start Sim.corrupted)
    ≠ (start Sim.corrupted,
       Val (None, Some (Errorf "non-PV object vol1 found in cache")))
  ∧ (waitForPVDisappearance Sim.plugin Sim.constants "vol1" Sim.twoSeconds
       (start Sim.corrupted)).2
    = Val (Some (Errorf "PV vol1 was not fully deleted after 2.00 seconds"))
  ∧ waits (waitForPVDisappearance Sim.plugin Sim.constants "vol1" Sim.twoSeconds
             (start Sim.corrupted)).1
    = [Sim.second; Sim.second]
  ∧ (waitForDeletedPV Sim.plugin Sim.constants "vol1" Sim.twoSeconds
       (start Sim.corrupted)).2
    = Val (None, Some (Errorf "PV vol1 was not deleted after 2.00 seconds"))
  ∧ waits (waitForDeletedPV Sim.plugin Sim.constants "vol1" Sim.twoSeconds
             (start Sim.corrupted)).1
    = [Sim.second; Sim.second].
Proof.
  split; [by exists (Some (ObjPVC Sim.pvc1))|].
  split; [intros H; apply (f_equal snd) in H; vm_compute in H; discriminate H|].
  split; [intros H; apply (f_equal snd) in H; vm_compute in H; discriminate H|].
  repeat split; vm_compute; reflexivity.
Qed.

Lemma type_mismatch_is_retried_witness :
  atEveryPoll Sim.plugin (typeMismatch Sim.plugin "vol1")
    (backoffIntervals Sim.plugin Sim.twoSeconds (world (start Sim.corrupted)))
    (world (start Sim.corrupted))
  ∧ waits (waitForPVDisappearance Sim.plugin Sim.constants "vol1" Sim.twoSeconds
             (start Sim.corrupted)).1
    = [Sim.second; Sim.second].
Proof.
  assert (atEveryPoll Sim.plugin (typeMismatch Sim.plugin "vol1")
            (backoffIntervals Sim.plugin Sim.twoSeconds (world (start Sim.corrupted)))
            (world (start Sim.corrupted))) as Hpolls
    by (repeat split; by exists (Some (ObjPVC Sim.pvc1))).
  split; [exact Hpolls|].
  destruct (type_mismatch_is_retried Sim.plugin Sim.constants "vol1" Sim.twoSeconds
              (start Sim.corrupted) Hpolls) as [-> _].
  reflexivity.
Defined.

Lemma createCSIPVFromPV_nfs_readonly_witness :
  spec_NFS (pv_Spec Sim.pv1) = Some Sim.nfs1
  ∧ nfs_ReadOnly Sim.nfs1 = true
  ∧ ∃ csi, spec_CSI (pv_Spec (csiPVFromPV Sim.constants Sim.pv1 Sim.vol1)) = Some csi
           ∧ csi_ReadOnly csi = true
           ∧ csi_FSType csi = ""
           ∧ csi_VolumeHandle csi = "vol1"
           ∧ lookup_key (csi_VolumeAttributes csi) "backendUUID" = Some "b-42".
Proof.
  split; [reflexivity|]. split; [reflexivity|].
  destruct (createCSIPVFromPV_nfs_readonly Sim.plugin Sim.constants Sim.pv1 Sim.vol1
              Sim.nfs1 (start Sim.healthy) eq_refl eq_refl)
    as (csi & attributes & _ & Hcsi & Hro & Hfs & Hhandle & Hattrs & _ & Huuid & _).
  exists csi. rewrite Hattrs. simpl. by repeat split.
Defined.

Lemma deletePVForUpgrade_idempotent_witness :
  DeletionTimestamp (pv_ObjectMeta Sim.pvMarked) ≠ None
  ∧ len (Finalizers (pv_ObjectMeta Sim.pvMarked)) = 0
  ∧ waits (deletePVForUpgrade Sim.plugin Sim.constants Sim.pvMarked
             (start Sim.withMarked)).1 = [Sim.second]
  ∧ deletePVForUpgrade Sim.plugin Sim.constants Sim.pvMarked
      (deletePVForUpgrade Sim.plugin Sim.constants Sim.pvMarked (start Sim.withMarked)).1
    = ((deletePVForUpgrade Sim.plugin Sim.constants Sim.pvMarked
          (start Sim.withMarked)).1, Val None).
Proof.
  split; [discriminate|]. split; [reflexivity|]. split; [vm_compute; reflexivity|].
  apply (deletePVForUpgrade_idempotent Sim.plugin Sim.constants Sim.pvMarked
           (start Sim.withMarked)).
  - discriminate.
  - reflexivity.
  - vm_compute; reflexivity.
Defined.

Lemma UpgradeVolume_returns_fetched_volume_witness :
  (UpgradeVolume Sim.plugin Sim.constants Sim.request (start Sim.healthy)).2
    = Val (inr Sim.vol1)
  ∧ orchestrator_GetVolume Sim.plugin (request_Volume Sim.request)
      (world (start Sim.healthy))
    = inr Sim.vol1.
Proof.
  assert ((UpgradeVolume Sim.plugin Sim.constants Sim.request (start Sim.healthy)).2
          = Val (inr Sim.vol1)) as Hrun by (vm_compute; reflexivity).
  split; [exact Hrun|].
  exact (UpgradeVolume_returns_fetched_volume Sim.plugin Sim.constants Sim.request
           (start Sim.healthy) Sim.vol1 Hrun).
Defined.

Lemma passesEarlyChecks_sim (pv : PersistentVolume) (ps : list Pod) (runs : bool) :
  pv_ObjectMeta pv = pv_ObjectMeta Sim.pv1 →
  pv_Spec pv = pv_Spec Sim.pv1 →
  pv_Phase pv = VolumeBound →
  passesEarlyChecks Sim.plugin Sim.constants Sim.request
    (start (Sim.cluster (ObjPV pv) ps runs)) Sim.vol1 pv
    {| ref_Namespace := "ns"; ref_Name := "pvc1" |} Sim.pvc1.
Proof.
  intros Hmeta Hspec Hphase. unfold passesEarlyChecks.
  rewrite Hmeta, Hspec, Hphase.
  repeat split; try reflexivity. by intros [? _].
Defined.

Lemma UpgradeVolume_rejects_naked_pods_witness :
  (∃ pod, pod ∈ [Sim.pod1; Sim.naked1; Sim.naked2] ∧ isNaked pod = true
          ∧ ∃ volume, volume ∈ range (pod_Volumes pod)
                      ∧ referencesClaim Sim.pvc1 volume = true)
  ∧ UpgradeVolume Sim.plugin Sim.constants Sim.request (start Sim.withNaked)
    = (start Sim.withNaked,
       Val (inl (Errorf (nakedPodsMessage ["naked1"; "naked1"; "naked2"])))).
Proof.
  assert (∃ pod, pod ∈ [Sim.pod1; Sim.naked1; Sim.naked2] ∧ isNaked pod = true
                 ∧ ∃ volume, volume ∈ range (pod_Volumes pod)
                             ∧ referencesClaim Sim.pvc1 volume = true) as Hnaked.
  { exists Sim.naked2. split; [set_solver|]. split; [reflexivity|].
    eexists. split; [apply list_elem_of_here|reflexivity]. }
  split; [exact Hnaked|].
  destruct (UpgradeVolume_rejects_naked_pods Sim.plugin Sim.constants Sim.request
              (start Sim.withNaked) Sim.pv1
              {| ref_Namespace := "ns"; ref_Name := "pvc1" |} Sim.pvc1
              {| Items := Some [Sim.pod1; Sim.naked1; Sim.naked2] |}
              eq_refl eq_refl eq_refl eq_refl Hnaked) as (_ & Hmessage & _).
  apply (Hmessage Sim.vol1). by apply passesEarlyChecks_sim.
Defined.

Lemma UpgradeVolume_claim_never_lost_witness :
  ∃ s2,
    UpgradeVolume Sim.plugin Sim.constants Sim.request (start Sim.stuck)
    = (s2, Val (inl (Errorf "PV upgrade: PVC did not reach the Lost state: PVC ns/pvc1 was not Lost after 3.00 seconds")))
    ∧ podDeletions s2 = podDeletions (start Sim.stuck).
Proof.
  apply (UpgradeVolume_claim_never_lost Sim.plugin Sim.constants Sim.request
           (start Sim.stuck)
           (deletePVForUpgrade Sim.plugin Sim.constants Sim.pv1 (start Sim.stuck)).1
           Sim.vol1 Sim.pv1 {| ref_Namespace := "ns"; ref_Name := "pvc1" |} Sim.pvc1
           {| Items := Some [Sim.pod1] |}).
  - by apply passesEarlyChecks_sim.
  - reflexivity.
  - reflexivity.
  - by right.
  - vm_compute; reflexivity.
  - vm_compute. repeat split; intros latestPVC [= <-]; discriminate.
Defined.

(** * The further properties on the small cluster *)

Lemma waitForDeletedOrNonRunningPod_running_witness :
  waits (waitForDeletedOrNonRunningPod Sim.plugin Sim.constants "pod1" "ns"
           Sim.twoSeconds (start Sim.healthy)).1
  = [Sim.second; Sim.second].
Proof.
  rewrite (waitForDeletedOrNonRunningPod_running Sim.plugin Sim.constants "pod1" "ns"
             Sim.twoSeconds (start Sim.healthy)).
  - reflexivity.
  - repeat split; by exists Sim.pod1.
Defined.

Lemma waitForDeletedOrNonRunningPod_terminal_witness :
  podNotFound Sim.plugin "ns" "pod1" None (world (start Sim.untouched))
  ∧ waitForDeletedOrNonRunningPod Sim.plugin Sim.constants "pod1" "ns"
      Sim.twoSeconds (start Sim.untouched)
    = (start Sim.untouched, Val (inr None)).
Proof.
  assert (podNotFound Sim.plugin "ns" "pod1" None (world (start Sim.untouched)))
    as Hgone by (by eexists).
  split; [exact Hgone|].
  apply (waitForDeletedOrNonRunningPod_terminal Sim.plugin Sim.constants "pod1" "ns"
           Sim.twoSeconds None (start Sim.untouched)).
  by left.
Defined.

Lemma createCSIPVFromPV_iscsi_witness :
  ∃ csi,
    spec_CSI (pv_Spec (csiPVFromPV Sim.constants Sim.pvISCSI Sim.vol1)) = Some csi
    ∧ csi_ReadOnly csi = false
    ∧ csi_FSType csi = "ext4".
Proof.
  destruct (createCSIPVFromPV_iscsi Sim.plugin Sim.constants Sim.pvISCSI Sim.vol1
              Sim.iscsi1 (start Sim.healthy) eq_refl eq_refl)
    as (csi & _ & Hcsi & _ & _ & Hro & Hfs).
  exists csi. by repeat split.
Defined.

Lemma getPodsForPVC_membership_witness :
  ∃ ownedPodsForPVC nakedPodsForPVC,
    getPodsForPVC Sim.plugin Sim.pvc1 (start Sim.withNaked)
    = (start Sim.withNaked, Val (inr (ownedPodsForPVC, nakedPodsForPVC))).
Proof.
  destruct (getPodsForPVC_membership Sim.plugin Sim.pvc1
              {| Items := Some [Sim.pod1; Sim.naked1; Sim.naked2] |}
              (start Sim.withNaked) eq_refl)
    as (owned & naked & Hrun & _).
  by exists owned, naked.
Defined.

Lemma deletePVForUpgrade_success_absent_witness :
  absentFromCache Sim.plugin "vol1"
    (world (deletePVForUpgrade Sim.plugin Sim.constants Sim.pv1 (start Sim.untouched)).1).
Proof.
  apply (deletePVForUpgrade_success_absent Sim.plugin Sim.constants Sim.pv1
           (start Sim.untouched)).
  vm_compute; reflexivity.
Defined.

Lemma UpgradeVolume_rejects_other_finalizers_witness :
  UpgradeVolume Sim.plugin Sim.constants Sim.request (start Sim.withHeld) =
    (start Sim.withHeld,
     Val (inl (Errorf
        "PV upgrade: PV has a finalizer other than kubernetes.io/pv-protection"))).
Proof.
  apply (UpgradeVolume_rejects_other_finalizers Sim.plugin Sim.constants Sim.request
           (start Sim.withHeld) Sim.vol1 Sim.pvHeld
           {| ref_Namespace := "ns"; ref_Name := "pvc1" |} Sim.pvc1
           {| Items := Some [Sim.pod1] |}).
  - repeat split; try reflexivity. by intros [? _].
  - reflexivity.
  - reflexivity.
  - intros [Hnone|Hone]; discriminate.
Defined.

Lemma UpgradeVolume_nil_claimRef_panics_witness :
  UpgradeVolume Sim.plugin Sim.constants Sim.request (start Sim.withUnclaimed)
  = (start Sim.withUnclaimed, Panic).
Proof.
  apply (UpgradeVolume_nil_claimRef_panics Sim.plugin Sim.constants Sim.request
           (start Sim.withUnclaimed) Sim.vol1 Sim.pvUnclaimed);
    try reflexivity.
  by intros [? _].
Defined.


Lemma waitForDeletedPV_immediate_witness :
  markedInCache Sim.plugin "vol1" Sim.pvMarked (world (start Sim.withMarked))
  ∧ waitForDeletedPV Sim.plugin Sim.constants "vol1" Sim.twoSeconds
      (start Sim.withMarked)
    = (start Sim.withMarked, Val (Some Sim.pvMarked, None)).
Proof.
  assert (markedInCache Sim.plugin "vol1" Sim.pvMarked (world (start Sim.withMarked)))
    as Hmarked by (by exists (Some (ObjPV Sim.pvMarked))).
  split; [exact Hmarked|].
  by apply (waitForDeletedPV_immediate Sim.plugin Sim.constants "vol1" Sim.twoSeconds
              (start Sim.withMarked)).
Defined.

Lemma waitForPVCPhase_immediate_witness :
  waitForPVCPhase Sim.plugin Sim.constants Sim.pvc1 ClaimBound Sim.twoSeconds
    (start Sim.healthy)
  = (start Sim.healthy, Val (inr (Some Sim.pvc1))).
Proof.
  apply (waitForPVCPhase_immediate Sim.plugin Sim.constants Sim.pvc1 Sim.pvc1
           ClaimBound Sim.twoSeconds (start Sim.healthy)).
  by split.
Defined.

Lemma UpgradeVolume_error_messages_witness :
  ∃ msg,
    (UpgradeVolume Sim.plugin Sim.constants Sim.request (start Sim.stuck)).2
    = Val (inl (Errorf msg))
    ∧ Stdlib.Strings.String.prefix "PV upgrade: " msg = true.
Proof.
  destruct (UpgradeVolume_error_messages Sim.plugin Sim.constants Sim.request
              (start Sim.stuck)
              (UpgradeVolume Sim.plugin Sim.constants Sim.request (start Sim.stuck)).1
              (Errorf "PV upgrade: PVC did not reach the Lost state: PVC ns/pvc1 was not Lost after 3.00 seconds"))
    as (msg & Hmsg & Hprefix).
  { vm_compute; reflexivity. }
  injection Hmsg as <-. eexists. split; [vm_compute; reflexivity|reflexivity].
Defined.
